(** * Strategy consulting agent: task classifier and service client

    A shallow embedding of [ag2_integration/strategy_agent.py]
    (class [StrategyConsultingAgent]) and the properties its specification
    states about it.

    Conventions of the model.
    - A Python [str] is a [string]; its characters are Rocq [ascii]
      characters.  The character functions below ([lower], [upper], [\s],
      case-insensitive matching) agree with Python's on code points below
      128; code points from 128 on are treated as caseless non-space
      characters.
    - JSON-like Python objects (task dictionaries, request bodies, decoded
      responses) are values of the type [value]; a [dict] with string keys
      is a [gmap string value].
    - [re] patterns are terms of a small regular-expression syntax run by a
      backtracking matcher with Python's priorities (leftmost start, left
      alternative first, greedy longest first, lazy shortest first).
    - The outside world (HTTP service, clock, uuid generator, logger) is an
      environment of oracles plus a trace of the events the agent caused. *)

From Stdlib Require Import ZArith String Ascii List Bool Floats DecimalString.
From stdpp Require Import gmap strings list fin_maps.

Set Default Proof Using "Type".
#[local] Set Warnings "-register-all".
#[local] Open Scope string_scope.
#[local] Open Scope list_scope.

(* ===================================================================== *)
(** * Python strings *)
(* ===================================================================== *)

Module PyStr.

Definition code (c : ascii) : nat := nat_of_ascii c.

Definition between (lo hi : nat) (c : ascii) : bool :=
  Nat.leb lo (code c) && Nat.leb (code c) hi.

(** [A-Z], [a-z], [0-9] *)
Definition is_upper : ascii -> bool := between 65 90.
Definition is_lower : ascii -> bool := between 97 122.
Definition is_digit : ascii -> bool := between 48 57.
Definition is_alpha (c : ascii) : bool := is_upper c || is_lower c.

(** [str.isspace] and the class [\s] of a [str] pattern: TAB LF VT FF CR,
    the separators FS GS RS US, and the space. *)
Definition is_space (c : ascii) : bool :=
  between 9 13 c || between 28 31 c || Nat.eqb (code c) 32.

Definition to_lower (c : ascii) : ascii :=
  if is_upper c then ascii_of_nat (code c + 32) else c.

Definition to_upper (c : ascii) : ascii :=
  if is_lower c then ascii_of_nat (code c - 32) else c.

Fixpoint map_chars (f : ascii -> ascii) (s : string) : string :=
  match s with
  | EmptyString => EmptyString
  | String c s' => String (f c) (map_chars f s')
  end.

(** [s.lower()], [s.upper()] *)
Definition lower : string -> string := map_chars to_lower.
Definition upper : string -> string := map_chars to_upper.

(** [s.title()]: a cased character is upper-cased when the character before
    it is uncased (or there is none) and lower-cased otherwise. *)
Fixpoint title_from (prev_cased : bool) (s : string) : string :=
  match s with
  | EmptyString => EmptyString
  | String c s' =>
      String (if prev_cased then to_lower c else to_upper c)
             (title_from (is_alpha c) s')
  end.
Definition title : string -> string := title_from false.

(** [needle in hay] *)
Fixpoint contains (needle hay : string) : bool :=
  String.prefix needle hay
  || match hay with
     | EmptyString => false
     | String _ hay' => contains needle hay'
     end.

(** [any(keyword in text for keyword in keywords)] *)
Definition any_in (keywords : list string) (text : string) : bool :=
  existsb (fun keyword => contains keyword text) keywords.

(** [s.lstrip()], [s.rstrip()], [s.strip()] *)
Fixpoint lstrip (s : string) : string :=
  match s with
  | String c s' => if is_space c then lstrip s' else s
  | EmptyString => EmptyString
  end.

Fixpoint rstrip (s : string) : string :=
  match s with
  | EmptyString => EmptyString
  | String c s' =>
      match rstrip s' with
      | EmptyString => if is_space c then EmptyString else String c EmptyString
      | t => String c t
      end
  end.

Definition strip (s : string) : string := rstrip (lstrip s).

(** [s.rstrip(chars)] for a one-character [chars] *)
Fixpoint rstrip_char (x : ascii) (s : string) : string :=
  match s with
  | EmptyString => EmptyString
  | String c s' =>
      match rstrip_char x s' with
      | EmptyString => if Ascii.eqb c x then EmptyString else String c EmptyString
      | t => String c t
      end
  end.

(** [s[:n]] *)
Definition str_take (n : nat) (s : string) : string := String.substring 0 n s.

(** [sep.join(parts)] *)
Fixpoint join (sep : string) (parts : list string) : string :=
  match parts with
  | [] => EmptyString
  | [p] => p
  | p :: ps => String.append p (String.append sep (join sep ps))
  end.

(** [str(n)] for an [int] *)
Definition str_of_int (n : Z) : string := NilEmpty.string_of_int (Z.to_int n).

(** The characters of a string, each as a one-character string (what
    iterating over a [str] yields). *)
Fixpoint chars (s : string) : list string :=
  match s with
  | EmptyString => []
  | String c s' => String c EmptyString :: chars s'
  end.

End PyStr.

(* ===================================================================== *)
(** * Python's [re] on the patterns the agent uses *)
(* ===================================================================== *)

Module Re.
Import PyStr.

(** The syntax covers what the agent's patterns are built from.  Every
    repetition in them is over a single character class. *)
Inductive regex : Type :=
| Lit (s : string)               (** a literal string *)
| Cls (p : ascii -> bool)        (** one character of a class: [[...]], [\s] *)
| Cat (r1 r2 : regex)            (** [r1 r2] *)
| Alt (r1 r2 : regex)            (** [r1|r2] *)
| Opt (r : regex)                (** [r?] *)
| Star (p : ascii -> bool)       (** [c*] *)
| Plus (p : ascii -> bool)       (** [c+] *)
| PlusLazy (p : ascii -> bool)   (** [c+?] *)
| Bol                            (** [^] *)
| Eol.                           (** [$] *)

(** Does pattern character [c] match text character [a]?  Under
    [re.IGNORECASE] letters match in either case. *)
Definition chr_match (ic : bool) (c a : ascii) : bool :=
  if ic then Ascii.eqb (to_lower c) (to_lower a) else Ascii.eqb c a.

(** Does class [p] accept [a]?  Under [re.IGNORECASE] it does when it
    accepts either case of [a]. *)
Definition cls_match (ic : bool) (p : ascii -> bool) (a : ascii) : bool :=
  p a || (ic && (p (to_lower a) || p (to_upper a))).

Section Matcher.
Context {A : Type}.
(** [ic]: the [re.IGNORECASE] flag; [n]: the length of the whole text. *)
Variables (ic : bool) (n : nat).

Fixpoint lit (l s : string) (k : string -> option A) : option A :=
  match l with
  | EmptyString => k s
  | String c l' =>
      match s with
      | String a s' => if chr_match ic c a then lit l' s' k else None
      | EmptyString => None
      end
  end.

(** Greedy repetition: take one more character first, fall back to
    stopping here. *)
Fixpoint star (p : ascii -> bool) (s : string) (k : string -> option A)
  : option A :=
  match s with
  | String a s' =>
      if cls_match ic p a
      then match star p s' k with
           | Some x => Some x
           | None => k s
           end
      else k s
  | EmptyString => k s
  end.

(** Lazy repetition: stop here first, fall back to one more character. *)
Fixpoint star_lazy (p : ascii -> bool) (s : string) (k : string -> option A)
  : option A :=
  match k s with
  | Some x => Some x
  | None =>
      match s with
      | String a s' => if cls_match ic p a then star_lazy p s' k else None
      | EmptyString => None
      end
  end.

Definition one (p : ascii -> bool) (s : string) (k : string -> option A)
  : option A :=
  match s with
  | String a s' => if cls_match ic p a then k s' else None
  | EmptyString => None
  end.

(** [$] matches at the end of the text and before a final newline. *)
Definition at_eol (s : string) : bool :=
  match s with
  | EmptyString => true
  | String c EmptyString => Ascii.eqb c "010"%char
  | _ => false
  end.

(** [exec r s k]: match [r] at the head of [s] and hand what is left of
    the text to [k]; the first success in priority order wins. *)
Fixpoint exec (r : regex) (s : string) (k : string -> option A) : option A :=
  match r with
  | Lit l => lit l s k
  | Cls p => one p s k
  | Cat r1 r2 => exec r1 s (fun s' => exec r2 s' k)
  | Alt r1 r2 =>
      match exec r1 s k with
      | Some x => Some x
      | None => exec r2 s k
      end
  | Opt r1 =>
      match exec r1 s k with
      | Some x => Some x
      | None => k s
      end
  | Star p => star p s k
  | Plus p => one p s (fun s' => star p s' k)
  | PlusLazy p => one p s (fun s' => star_lazy p s' k)
  | Bol => if Nat.eqb (String.length s) n then k s else None
  | Eol => if at_eol s then k s else None
  end.

(** Try every start position from left to right. *)
Fixpoint scan (m : string -> option A) (s : string) : option A :=
  match m s with
  | Some x => Some x
  | None =>
      match s with
      | String _ s' => scan m s'
      | EmptyString => None
      end
  end.
End Matcher.

(** A pattern with exactly one capturing group: [pre (grp) post]. *)
Record pattern := Pattern { pre : regex; grp : regex; post : regex }.

(** A match object, as far as the agent looks at it: [group(1)] and the
    text after the end of the match. *)
Record matched := Matched { group1 : string; rest : string }.

Definition match_here (ic : bool) (n : nat) (pat : pattern) (s : string)
  : option matched :=
  exec ic n (pre pat) s (fun s1 =>
  exec ic n (grp pat) s1 (fun s2 =>
  exec ic n (post pat) s2 (fun s3 =>
    Some (Matched (str_take (String.length s1 - String.length s2) s1) s3)))).

(** [re.search(pat, text, flags)] *)
Definition search (ic : bool) (pat : pattern) (text : string) : option matched :=
  scan (match_here ic (String.length text) pat) text.

(** [re.findall(pat, text)] for a pattern with one group whose matches are
    never empty: the [group(1)] of the successive non-overlapping matches. *)
Fixpoint findall_from (fuel : nat) (n : nat) (pat : pattern) (s : string)
  : list string :=
  match fuel with
  | O => []
  | S fuel' =>
      match scan (match_here false n pat) s with
      | Some m => group1 m :: findall_from fuel' n pat (rest m)
      | None => []
      end
  end.

Definition findall (pat : pattern) (text : string) : list string :=
  findall_from (S (String.length text)) (String.length text) pat text.

(** The first match of a group-less [r] in [s]: the text before it and the
    text after it. *)
Fixpoint cut (n : nat) (r : regex) (s : string) : option (string * string) :=
  match exec false n r s (fun s' => Some s') with
  | Some s' => Some (EmptyString, s')
  | None =>
      match s with
      | String c s' =>
          match cut n r s' with
          | Some (before, after) => Some (String c before, after)
          | None => None
          end
      | EmptyString => None
      end
  end.

(** [re.split(r, text)] for a group-less [r] whose matches are never
    empty. *)
Fixpoint split_from (fuel : nat) (n : nat) (r : regex) (s : string)
  : list string :=
  match fuel with
  | O => [s]
  | S fuel' =>
      match cut n r s with
      | Some (before, after) => before :: split_from fuel' n r after
      | None => [s]
      end
  end.

Definition split (r : regex) (text : string) : list string :=
  split_from (String.length text) (String.length text) r text.

End Re.

(* ===================================================================== *)
(** * Python values *)
(* ===================================================================== *)

(** What [json] encodes and decodes, which is also all a task dictionary
    holds: [None], [bool], [int], [float], [str], [list], [dict]. *)
Inductive value : Type :=
| VNone
| VBool (b : bool)
| VInt (n : Z)
| VFloat (f : float)
| VStr (s : string)
| VList (l : list value)
| VDict (d : gmap string value).

(** A [dict] display [{k1: v1, k2: v2, ...}]: later bindings of a key
    replace earlier ones. *)
Definition dict (bindings : list (string * value)) : gmap string value :=
  foldl (fun d kv => <[kv.1 := kv.2]> d) ∅ bindings.

(** [d.get(key)] and [d.get(key, default)] *)
Definition get (d : gmap string value) (key : string) : value :=
  default VNone (d !! key).
Definition get_or (d : gmap string value) (key : string) (dflt : value) : value :=
  default dflt (d !! key).

(** [key in d] *)
Definition has_key (d : gmap string value) (key : string) : bool :=
  bool_decide (is_Some (d !! key)).

(** [v == s] for a string literal [s] *)
Definition eq_str (v : value) (s : string) : bool :=
  match v with
  | VStr s' => String.eqb s' s
  | _ => false
  end.

(** Truth value of an object in a condition. *)
Definition truthy (v : value) : bool :=
  match v with
  | VNone => false
  | VBool b => b
  | VInt n => negb (Z.eqb n 0)
  | VFloat f => negb (PrimFloat.eqb f 0%float)
  | VStr s => negb (String.eqb s "")
  | VList l => match l with [] => false | _ => true end
  | VDict d => negb (bool_decide (d = ∅))
  end.

(** An [Optional[str]] as a value. *)
Definition of_opt_str (o : option string) : value :=
  match o with
  | Some s => VStr s
  | None => VNone
  end.

Definition of_strs (l : list string) : value := VList (VStr <$> l).

(** Exceptions the modelled code can raise by itself.  ([TypeError] also
    stands for the [KeyError] that slicing a [dict] raises from Python 3.12
    on.) *)
Inductive exn : Type := AttributeError | TypeError.

Inductive result (A : Type) : Type :=
| Ret (a : A)
| Raise (e : exn).
Arguments Ret {A} a.
Arguments Raise {A} e.

(* ===================================================================== *)
(** * The task classifier *)
(* ===================================================================== *)

Import PyStr.

Definition dquote : ascii := "034"%char.
Definition newline : ascii := "010"%char.

(** Concatenation and alternation of several expressions. *)
Definition cats (rs : list Re.regex) : Re.regex := foldr Re.Cat (Re.Lit "") rs.

Fixpoint alts (rs : list Re.regex) : Re.regex :=
  match rs with
  | [] => Re.Cls (fun _ => false)
  | [r] => r
  | r :: rs' => Re.Alt r (alts rs')
  end.

(** [\s+], [\s*] *)
Definition spaces1 : Re.regex := Re.Plus is_space.
Definition spaces0 : Re.regex := Re.Star is_space.

(** [[A-Za-z0-9\s&]] *)
Definition name_char (c : ascii) : bool :=
  is_upper c || is_lower c || is_digit c || is_space c || Ascii.eqb c "&".

(** [([A-Z][A-Za-z0-9\s&]+?)] *)
Definition name_group : Re.regex := Re.Cat (Re.Cls is_upper) (Re.PlusLazy name_char).

(** Negated classes: any character but a comma or newline; any but a
    period; any but a double quote. *)
Definition not_comma_nl (c : ascii) : bool := negb (Ascii.eqb c "," || Ascii.eqb c newline).
Definition not_period (c : ascii) : bool := negb (Ascii.eqb c ".").
Definition not_dquote (c : ascii) : bool := negb (Ascii.eqb c dquote).

(** The four patterns of [_extract_company_name], in the order tried. *)
Definition company_patterns : list Re.pattern :=
  [ (* analyze\s+([A-Z][A-Za-z0-9\s&]+?)(?:\s+using|\s+with|\.|,|$) *)
    Re.Pattern
      (cats [Re.Lit "analyze"; spaces1])
      name_group
      (alts [cats [spaces1; Re.Lit "using"]; cats [spaces1; Re.Lit "with"];
             Re.Lit "."; Re.Lit ","; Re.Eol]);
    (* (?:SWOT|analysis|evaluate)\s+(?:for|of)\s+([A-Z][A-Za-z0-9\s&]+?)(?:\s+using|\.|,|$) *)
    Re.Pattern
      (cats [alts [Re.Lit "SWOT"; Re.Lit "analysis"; Re.Lit "evaluate"]; spaces1;
            alts [Re.Lit "for"; Re.Lit "of"]; spaces1])
      name_group
      (alts [cats [spaces1; Re.Lit "using"]; Re.Lit "."; Re.Lit ","; Re.Eol]);
    (* company\s+([A-Z][A-Za-z0-9\s&]+?)(?:\s+in|\.|,|$) *)
    Re.Pattern
      (cats [Re.Lit "company"; spaces1])
      name_group
      (alts [cats [spaces1; Re.Lit "in"]; Re.Lit "."; Re.Lit ","; Re.Eol]);
    (* ^\s*([A-Z][A-Za-z0-9\s&]+?)\s+(?:SWOT|analysis|strategy) *)
    Re.Pattern
      (cats [Re.Bol; spaces0])
      name_group
      (cats [spaces1; alts [Re.Lit "SWOT"; Re.Lit "analysis"; Re.Lit "strategy"]]) ].

(** A double quote, [([^Q]+)] and a double quote, where Q stands for the
    double quote character. *)
Definition quoted_pattern : Re.pattern :=
  Re.Pattern (Re.Lit (String dquote "")) (Re.Plus not_dquote) (Re.Lit (String dquote "")).

(** [for pattern in patterns: match = re.search(pattern, text, re.IGNORECASE);
    if match: ...]: the first pattern that matches, with its match. *)
Fixpoint first_search (patterns : list Re.pattern) (text : string)
  : option Re.matched :=
  match patterns with
  | [] => None
  | pat :: patterns' =>
      match Re.search true pat text with
      | Some m => Some m
      | None => first_search patterns' text
      end
  end.

Definition _extract_company_name (text : string) : option string :=
  match first_search company_patterns text with
  | Some m => Some (strip (Re.group1 m))
  | None =>
      match Re.findall quoted_pattern text with
      | q :: _ => Some q
      | [] => None
      end
  end.

Definition _extract_depth (text : string) : string :=
  let text_lower := lower text in
  if contains "comprehensive" text_lower || contains "detailed" text_lower
     || contains "thorough" text_lower
  then "comprehensive"
  else if contains "quick" text_lower || contains "brief" text_lower
          || contains "summary" text_lower
  then "quick"
  else "standard".

Definition industry_patterns : list Re.pattern :=
  [ (* (?:industry|sector):\s*([^,\n]+) *)
    Re.Pattern
      (cats [alts [Re.Lit "industry"; Re.Lit "sector"]; Re.Lit ":"; spaces0])
      (Re.Plus not_comma_nl)
      (cats []);
    (* in\s+the\s+([^,\n]+?)\s+(?:industry|sector|market) *)
    Re.Pattern
      (cats [Re.Lit "in"; spaces1; Re.Lit "the"; spaces1])
      (Re.PlusLazy not_comma_nl)
      (cats [spaces1; alts [Re.Lit "industry"; Re.Lit "sector"; Re.Lit "market"]]);
    (* ([^,\n]+?)\s+market\s+entry *)
    Re.Pattern
      (cats [])
      (Re.PlusLazy not_comma_nl)
      (cats [spaces1; Re.Lit "market"; spaces1; Re.Lit "entry"]) ].

Definition _extract_industry (text : string) : string :=
  match first_search industry_patterns text with
  | Some m => strip (Re.group1 m)
  | None => "technology"
  end.

Definition regions : list string :=
  ["europe"; "asia"; "north america"; "south america"; "africa"; "middle east";
   "global"].

Definition _extract_region (text : string) : string :=
  let text_lower := lower text in
  match find (fun region => contains region text_lower) regions with
  | Some region => title region
  | None => "Global"
  end.

Definition competitor_patterns : list Re.pattern :=
  [ (* (?:versus|vs\.?|against)\s+([^\.]+) *)
    Re.Pattern
      (cats [alts [Re.Lit "versus"; cats [Re.Lit "vs"; Re.Opt (Re.Lit ".")];
                  Re.Lit "against"]; spaces1])
      (Re.Plus not_period)
      (cats []);
    (* competitors?:\s*([^\.]+) *)
    Re.Pattern
      (cats [Re.Lit "competitor"; Re.Opt (Re.Lit "s"); Re.Lit ":"; spaces0])
      (Re.Plus not_period)
      (cats []);
    (* compete\s+with\s+([^\.]+) *)
    Re.Pattern
      (cats [Re.Lit "compete"; spaces1; Re.Lit "with"; spaces1])
      (Re.Plus not_period)
      (cats []) ].

(** [[,;]|\sand\s] *)
Definition competitor_delimiter : Re.regex :=
  alts [Re.Cls (fun c => Ascii.eqb c "," || Ascii.eqb c ";");
        cats [Re.Cls is_space; Re.Lit "and"; Re.Cls is_space]].

Definition _extract_competitors (text : string) : list string :=
  match first_search competitor_patterns text with
  | Some m =>
      let competitors_text := Re.group1 m in
      let competitors := Re.split competitor_delimiter competitors_text in
      strip <$> filter (fun c => strip c ≠ "") competitors
  | None => []
  end.

(** A task is a [dict] with string keys. *)
Abbreviation task := (gmap string value).

Definition swot_keywords : list string :=
  ["swot"; "strengths"; "weaknesses"; "opportunities"; "threats"].
Definition five_forces_keywords : list string :=
  ["porter"; "five forces"; "competitive forces"; "industry analysis"].
Definition market_entry_keywords : list string :=
  ["market entry"; "enter market"; "expand into"; "market expansion"].
Definition competitive_keywords : list string :=
  ["competitive analysis"; "competitor analysis"; "competition"; "versus"; "vs"].

(** The body of [_parse_message_for_task] from [text_lower = text.lower()]
    on: the [if]/[elif] chain over the keyword lists. *)
Definition classify (text : string) : option task :=
  let text_lower := lower text in
  if any_in swot_keywords text_lower then
    let company := of_opt_str (_extract_company_name text) in
    if truthy company then
      Some (dict [("type", VStr "swot");
                  ("company", company);
                  ("framework", VStr "swot");
                  ("depth", VStr (_extract_depth text))])
    else None
  else if any_in five_forces_keywords text_lower then
    let company := of_opt_str (_extract_company_name text) in
    if truthy company then
      Some (dict [("type", VStr "analyze");
                  ("company", company);
                  ("framework", VStr "porters-five-forces");
                  ("depth", VStr (_extract_depth text))])
    else None
  else if any_in market_entry_keywords text_lower then
    Some (dict [("type", VStr "market_entry");
                ("industry", VStr (_extract_industry text));
                ("region", VStr (_extract_region text));
                ("company", of_opt_str (_extract_company_name text))])
  else if any_in competitive_keywords text_lower then
    Some (dict [("type", VStr "competitive");
                ("company", of_opt_str (_extract_company_name text));
                ("competitors", of_strs (_extract_competitors text))])
  else if contains "analyze" text_lower
          && truthy (of_opt_str (_extract_company_name text)) then
    let company := of_opt_str (_extract_company_name text) in
    Some (dict [("type", VStr "analyze");
                ("company", company);
                ("framework", VStr "swot");
                ("depth", VStr (_extract_depth text))])
  else None.

(** What the reply function is handed: a list of messages, each a [dict] or
    some other object (given by its [str()]), or a single object that is not
    a list (given by its [str()]; a [str] is its own). *)
Inductive message : Type :=
| MsgDict (d : gmap string value)
| MsgObject (str_ : string).

Inductive messages : Type :=
| MsgList (l : list message)
| MsgOther (str_ : string).

(** The value bound to [text] before [text.lower()] is called. *)
Definition message_text (msgs : messages) : value :=
  match msgs with
  | MsgList l =>
      match last l with
      | Some (MsgDict d) => get_or d "content" (VStr "")
      | Some (MsgObject s) => VStr s
      | None => VStr ""
      end
  | MsgOther s => VStr s
  end.

(** [text.lower()] exists for a [str] only. *)
Definition _parse_message_for_task (msgs : messages) : result (option task) :=
  match message_text msgs with
  | VStr text => Ret (classify text)
  | _ => Raise AttributeError
  end.

(** ** The classifier as the specification words it: an ordered rule table

    Each rule has a keyword condition on the lower-cased text and a task it
    yields ("no task" included); the rules are tried from the top and the
    first whose keyword condition holds decides. *)

Inductive rule_name : Type :=
| SwotRule | FiveForcesRule | MarketEntryRule | CompetitiveRule | GenericAnalyzeRule.

Record rule := Rule {
  rule_id : rule_name;
  keyword_condition : string -> bool;
  yields : string -> option task
}.

Definition company_scoped_task (type_ framework text : string) : option task :=
  match _extract_company_name text with
  | Some company =>
      if String.eqb company "" then None
      else Some (dict [("type", VStr type_);
                       ("company", VStr company);
                       ("framework", VStr framework);
                       ("depth", VStr (_extract_depth text))])
  | None => None
  end.

Definition market_entry_task (text : string) : option task :=
  Some (dict [("type", VStr "market_entry");
              ("industry", VStr (_extract_industry text));
              ("region", VStr (_extract_region text));
              ("company", of_opt_str (_extract_company_name text))]).

Definition competitive_task (text : string) : option task :=
  Some (dict [("type", VStr "competitive");
              ("company", of_opt_str (_extract_company_name text));
              ("competitors", of_strs (_extract_competitors text))]).

Definition rule_table : list rule :=
  [ Rule SwotRule (any_in swot_keywords)
         (company_scoped_task "swot" "swot");
    Rule FiveForcesRule (any_in five_forces_keywords)
         (company_scoped_task "analyze" "porters-five-forces");
    Rule MarketEntryRule (any_in market_entry_keywords) market_entry_task;
    Rule CompetitiveRule (any_in competitive_keywords) competitive_task;
    Rule GenericAnalyzeRule (contains "analyze")
         (company_scoped_task "analyze" "swot") ].

Fixpoint first_match (rules : list rule) (text : string) : option task :=
  match rules with
  | [] => None
  | r :: rules' =>
      if keyword_condition r (lower text) then yields r text
      else first_match rules' text
  end.

(** The rules whose task needs a company name. *)
Definition company_scoped (n : rule_name) : bool :=
  match n with
  | SwotRule | FiveForcesRule | GenericAnalyzeRule => true
  | MarketEntryRule | CompetitiveRule => false
  end.

(** The rule that applies to a text: the first whose keyword condition
    holds. *)
Definition applicable_rule (text : string) : option rule :=
  find (fun r => keyword_condition r (lower text)) rule_table.

(** Every keyword the classifier recognizes. *)
Definition recognized_keywords : list string :=
  swot_keywords ++ five_forces_keywords ++ market_entry_keywords
  ++ competitive_keywords ++ ["analyze"].

(* ===================================================================== *)
(** * The service client *)
(* ===================================================================== *)

(** ** The world around the agent *)

Inductive log_level : Type := INFO | ERROR.

(** What the agent does to the world, in the order it does it. *)
Inductive event : Type :=
| EvUuid4                                   (** [uuid.uuid4()] *)
| EvPost (endpoint : string) (json : gmap string value) (timeout : Z)
         (headers : list (string * string)) (** [session.post(...)] *)
| EvGet (url : string) (timeout : Z)        (** [session.get(...)] *)
| EvSleep (seconds : Z)                     (** [time.sleep(...)] *)
| EvLog (level : log_level) (msg : string). (** [logger.info/error(...)] *)

(** [response.json()]: the decoded body, or the text of the exception it
    raises. *)
Inductive decoded : Type :=
| Json (v : value)
| NotJson (err : string).

(** How an HTTP request ends.  The [except] clauses of [_make_request] are
    tried in order, so [Timeout] is any exception of that class (a connect
    timeout included) and [ConnectionError] any other exception of that
    class. *)
Inductive outcome : Type :=
| Response (status_code : Z) (text : string) (json : decoded)
| Timeout                      (** [requests.exceptions.Timeout] *)
| ConnectionError              (** [requests.exceptions.ConnectionError] *)
| OtherError (err : string).   (** any other exception, with its [str()] *)

(** What the agent cannot decide: the tokens the uuid generator yields, how
    the HTTP requests end (both in the order of the calls), the date, and
    the text Python gives a value or an exception. *)
Record env := Env {
  uuid4 : nat -> string;
  http : nat -> outcome;
  today : string;
  str_value : value -> string;
  str_exn : exn -> string
}.

(** The agent object's fields. *)
Record client := Client {
  name : string;
  system_message : string;
  service_url : string;
  timeout : Z;
  session_id : string
}.

(** The agent object and the events so far. *)
Record world := World {
  agent : client;
  trace : list event
}.

Definition is_request (e : event) : bool :=
  match e with
  | EvPost _ _ _ _ | EvGet _ _ => true
  | _ => false
  end.

Definition is_uuid4 (e : event) : bool :=
  match e with
  | EvUuid4 => true
  | _ => false
  end.

Definition is_post (e : event) : bool :=
  match e with
  | EvPost _ _ _ _ => true
  | _ => false
  end.

Definition requests_made (t : list event) : nat := length (filter is_request t).
Definition uuids_drawn (t : list event) : nat := length (filter is_uuid4 t).
Definition posts (t : list event) : list event := filter is_post t.

(** ** The monad of the agent's methods: state passing over the world *)

Definition M (A : Type) : Type := world -> A * world.

#[global] Instance M_ret : MRet M := fun A (a : A) (w : world) => (a, w).

#[global] Instance M_bind : MBind M :=
  fun A B (f : A -> M B) (m : M A) (w : world) => let (a, w') := m w in f a w'.

Definition emit (e : event) : M unit :=
  fun w => (tt, World (agent w) (trace w ++ [e])).

Definition get_self : M client := fun w => (agent w, w).

Definition log (level : log_level) (msg : string) : M unit := emit (EvLog level msg).

Definition sleep (seconds : Z) : M unit := emit (EvSleep seconds).

Section Client.
Variable E : env.

(** [self.session.post(endpoint, json=data, timeout=..., headers=...)] *)
Definition session_post (endpoint : string) (data : gmap string value)
    (timeout : Z) (headers : list (string * string)) : M outcome :=
  fun w =>
    (http E (requests_made (trace w)),
     World (agent w) (trace w ++ [EvPost endpoint data timeout headers])).

(** [self.session.get(url, timeout=...)] *)
Definition session_get (url : string) (timeout : Z) : M outcome :=
  fun w =>
    (http E (requests_made (trace w)),
     World (agent w) (trace w ++ [EvGet url timeout])).

Definition _get_default_system_message : string :=
  "You are an elite strategy consultant specializing in:
        - Business strategy and competitive analysis (SWOT, Porter's Five Forces)
        - Market entry and expansion strategies
        - Competitive intelligence and positioning
        - Strategic recommendations and action plans
        
        When asked to analyze a company or market, you will:
        1. Identify the appropriate strategic framework
        2. Gather relevant information
        3. Apply the framework systematically
        4. Provide actionable insights and recommendations
        
        You have access to advanced analytical tools and frameworks.".

(** [__init__(name, service_url, timeout, **kwargs)], run when the events
    so far are [t]; [kw_system_message] is [kwargs]' ['system_message'],
    if given. *)
Definition __init__ (name service_url : string) (timeout : Z)
    (kw_system_message : option string) (t : list event) : world :=
  let system_message := default _get_default_system_message kw_system_message in
  let session_id := uuid4 E (uuids_drawn t) in
  World (Client name system_message (rstrip_char "/" service_url) timeout session_id)
        (t ++ [EvUuid4;
               EvLog INFO ("Initialized " +:+ name +:+ " with service at "
                           +:+ service_url)]).

Definition max_retries : nat := 3.
Definition retry_delay : Z := 1.

(** The [for attempt in range(max_retries)] loop of [_make_request], over
    the attempts still to make. *)
Fixpoint attempts (endpoint : string) (data : gmap string value)
    (todo : list nat) : M value :=
  match todo with
  | [] => mret VNone
  | attempt :: todo' =>
      self ← get_self;
      o ← session_post endpoint data (timeout self)
            [("Content-Type", "application/json")];
      match o with
      | Response status_code text json =>
          if Z.eqb status_code 200 then
            match json with
            | Json v => mret v
            | NotJson err =>
                log ERROR ("Unexpected error in request: " +:+ err);;
                mret VNone
            end
          else if Z.eqb status_code 503 then
            if Nat.ltb attempt (max_retries - 1) then
              sleep (retry_delay * (Z.of_nat attempt + 1));;
              attempts endpoint data todo'
            else attempts endpoint data todo'
          else
            log ERROR ("Request failed with status " +:+ str_of_int status_code
                       +:+ ": " +:+ text);;
            mret VNone
      | Timeout =>
          log ERROR ("Request timeout after " +:+ str_of_int (timeout self)
                     +:+ " seconds");;
          if Nat.ltb attempt (max_retries - 1) then attempts endpoint data todo'
          else mret VNone
      | ConnectionError =>
          log ERROR ("Connection error to " +:+ endpoint);;
          mret VNone
      | OtherError err =>
          log ERROR ("Unexpected error in request: " +:+ err);;
          mret VNone
      end
  end.

Definition _make_request (endpoint : string) (data : gmap string value) : M value :=
  attempts endpoint data (seq 0 max_retries).

Definition analyze_company (company framework depth : value) : M value :=
  self ← get_self;
  let endpoint := service_url self +:+ "/api/analyze" in
  let data := dict [("company", company);
                    ("framework", framework);
                    ("depth", depth);
                    ("sessionId", VStr (session_id self))] in
  _make_request endpoint data.

Definition analyze_market_entry (industry region company : value) : M value :=
  self ← get_self;
  let endpoint := service_url self +:+ "/api/market-entry" in
  let data := dict [("industry", industry);
                    ("region", region);
                    ("company", company);
                    ("sessionId", VStr (session_id self))] in
  _make_request endpoint data.

Definition analyze_competitive (company competitors : value) : M value :=
  self ← get_self;
  let endpoint := service_url self +:+ "/api/competitive" in
  let data := dict [("company", company);
                    ("competitors", competitors);
                    ("sessionId", VStr (session_id self))] in
  _make_request endpoint data.

(** Nothing in the [try] block raises: [_make_request] handles its own
    exceptions, so the [except] branch is never taken. *)
Definition _execute_task (task : gmap string value) : M value :=
  let task_type := get task "type" in
  if eq_str task_type "analyze" || eq_str task_type "swot" then
    analyze_company (get task "company")
                    (get_or task "framework" (VStr "swot"))
                    (get_or task "depth" (VStr "standard"))
  else if eq_str task_type "market_entry" then
    analyze_market_entry (get task "industry") (get task "region")
                         (get task "company")
  else if eq_str task_type "competitive" then
    analyze_competitive (get task "company")
                        (get_or task "competitors" (VList []))
  else mret VNone.

Definition check_service_health : M bool :=
  self ← get_self;
  o ← session_get (service_url self +:+ "/api/health") 5;
  match o with
  | Response status_code _ _ => mret (Z.eqb status_code 200)
  | _ => mret false
  end.
End Client.

(* ===================================================================== *)
(** * Formatting a result and replying *)
(* ===================================================================== *)

#[global] Instance result_ret : MRet result := fun A (a : A) => Ret a.

#[global] Instance result_bind : MBind result :=
  fun A B (f : A -> result B) (m : result A) =>
    match m with
    | Ret a => f a
    | Raise e => Raise e
    end.

(** [for item in v[:5]]: the items the loop runs over.  A [list] gives its
    first five elements and a [str] its first five characters; the other
    values cannot be sliced. *)
Definition first_five (v : value) : result (list value) :=
  match v with
  | VList l => Ret (take 5 l)
  | VStr s => Ret (VStr <$> chars (str_take 5 s))
  | _ => Raise TypeError
  end.

(** [v.upper()] *)
Definition value_upper (v : value) : result string :=
  match v with
  | VStr s => Ret (upper s)
  | _ => Raise AttributeError
  end.

Section Reply.
Variable E : env.

(** [f"- {item}"] for each item *)
Definition bullets (items : list value) : list string :=
  (fun item => "- " +:+ str_value E item) <$> items.

(** [f"{i}. {rec}"] for [i, rec in enumerate(items, 1)] *)
Definition numbered (items : list value) : list string :=
  imap (fun i rec => str_of_int (Z.of_nat i + 1) +:+ ". " +:+ str_value E rec) items.

(** One of the four blocks [if key in analysis: ...] of [_format_response],
    applied to the lines so far. *)
Definition category (analysis : gmap string value) (key heading : string)
    (response : list string) : result (list string) :=
  if has_key analysis key then
    items ← first_five (get_or analysis key (VList []));
    mret (response ++ [heading] ++ bullets items ++ [""])
  else mret response.

(** The header [_format_response] starts [response] with, by task type. *)
Definition header_lines (result_ task : gmap string value)
    : result (list string) :=
  let task_type := get task "type" in
  if eq_str task_type "analyze" || eq_str task_type "swot" then
    framework ← value_upper (get_or result_ "framework" (VStr "SWOT"));
    mret ["# Strategic Analysis: " +:+ str_value E (get task "company");
          "**Framework:** " +:+ framework]
  else if eq_str task_type "market_entry" then
    mret ["# Market Entry Analysis";
          "**Industry:** " +:+ str_value E (get task "industry");
          "**Region:** " +:+ str_value E (get task "region")]
  else if eq_str task_type "competitive" then
    mret ["# Competitive Analysis: " +:+ str_value E (get task "company")]
  else mret [].

(** The date line: the day of [datetime.now()] as year-month-day, and a
    newline. *)
Definition date_line : string := "**Date:** " +:+ today E +:+ String newline "".

(** The lines [_format_response] collects in [response] for a [dict]
    result. *)
Definition response_lines (result_ task : gmap string value)
    : result (list string) :=
  header ← header_lines result_ task;
  let response := header ++ [date_line] in
  let analysis := get_or result_ "analysis" (VDict ∅) in
  response ←
    (if eq_str (get result_ "framework") "swot" then
       match analysis with
       | VDict analysis =>
           response ← category analysis "strengths" "## Strengths" response;
           response ← category analysis "weaknesses" "## Weaknesses" response;
           response ← category analysis "opportunities" "## Opportunities" response;
           category analysis "threats" "## Threats" response
       | _ => mret response
       end
     else mret response);
  let recommendations := get_or result_ "recommendations" (VList []) in
  if truthy recommendations then
    items ← first_five recommendations;
    mret (response ++ ["## Strategic Recommendations"] ++ numbered items)
  else mret response.

(** A result that is not a [dict] has no [get]. *)
Definition _format_response (result_ : value) (task : gmap string value)
    : result string :=
  if negb (truthy result_) then Ret "Analysis could not be completed."
  else
    match result_ with
    | VDict d =>
        response ← response_lines d task;
        mret (join (String newline "") response)
    | _ => Raise AttributeError
    end.

Definition strategy_reply (msgs : messages) : M value :=
  let on_error (e : exn) : M value :=
    log ERROR ("Error in strategy_reply: " +:+ str_exn E e);;
    mret (VStr ("I encountered an error while processing your request: "
                +:+ str_exn E e)) in
  match _parse_message_for_task msgs with
  | Raise e => on_error e
  | Ret None => mret VNone
  | Ret (Some task) =>
      if negb (truthy (VDict task)) then mret VNone
      else
        result_ ← _execute_task E task;
        if truthy result_ then
          match _format_response result_ task with
          | Ret response => mret (VStr response)
          | Raise e => on_error e
          end
        else mret VNone
  end.

(** The calls a user of the agent can make on it. *)
Inductive call : Type :=
| StrategyReply (msgs : messages)
| AnalyzeCompany (company framework depth : value)
| AnalyzeMarketEntry (industry region company : value)
| AnalyzeCompetitive (company competitors : value)
| ExecuteTask (task : gmap string value)
| CheckServiceHealth.

Definition run_call (c : call) : M unit :=
  match c with
  | StrategyReply msgs => strategy_reply msgs;; mret tt
  | AnalyzeCompany company framework depth =>
      analyze_company E company framework depth;; mret tt
  | AnalyzeMarketEntry industry region company =>
      analyze_market_entry E industry region company;; mret tt
  | AnalyzeCompetitive company competitors =>
      analyze_competitive E company competitors;; mret tt
  | ExecuteTask task => _execute_task E task;; mret tt
  | CheckServiceHealth => check_service_health E;; mret tt
  end.

Fixpoint run_calls (cs : list call) : M unit :=
  match cs with
  | [] => mret tt
  | c :: cs' => run_call c;; run_calls cs'
  end.
End Reply.

(** ** Vocabulary of the statements about the matcher *)

(** A successful match ends in a successful continuation, on a text that
    is no longer than the one it started from. *)
Definition continues {A} (s : string) (k : string -> option A) (x : A) : Prop :=
  exists s', k s' = Some x /\ String.length s' <= String.length s.

(** A group that starts by consuming a character of class [p]. *)
Definition starts_with_class (p : ascii -> bool) (r : Re.regex) : Prop :=
  forall (ic : bool) (n : nat) (s : string) (k : string -> option Re.matched) m,
    Re.exec ic n r s k = Some m ->
    exists a s', s = String a s' /\ Re.cls_match ic p a = true
                 /\ continues s' k m.

(** ** Vocabulary of the statements about the client *)

(** The path the client posts a task of a given type to, if it posts. *)
Definition endpoint_path (task_type : value) : option string :=
  if eq_str task_type "analyze" || eq_str task_type "swot" then Some "/api/analyze"
  else if eq_str task_type "market_entry" then Some "/api/market-entry"
  else if eq_str task_type "competitive" then Some "/api/competitive"
  else None.

(** An event that, if it is a POST, goes to [endpoint]. *)
Definition posts_to (endpoint : string) (e : event) : Prop :=
  match e with
  | EvPost endpoint' _ _ _ => endpoint' = endpoint
  | _ => True
  end.

(** An event that, if it is a POST, has [sid] as the [sessionId] of its JSON
    body. *)
Definition carries_session (sid : string) (e : event) : Prop :=
  match e with
  | EvPost _ data _ _ => data !! "sessionId" = Some (VStr sid)
  | _ => True
  end.

(** The status code a request came back with, if it came back. *)
Definition status_of (o : outcome) : option Z :=
  match o with
  | Response status_code _ _ => Some status_code
  | _ => None
  end.

(** The outcomes after which [_make_request] tries again (if attempts are
    left), and those the specification has it give up on at once. *)
Definition retried (o : outcome) : Prop :=
  status_of o = Some 503%Z \/ o = Timeout.

Definition aborting (o : outcome) : Prop :=
  o = ConnectionError
  \/ exists status_code, status_of o = Some status_code
       /\ status_code <> 200%Z /\ status_code <> 503%Z.

(** The world [w] after the further events [evs]. *)
Definition after (w : world) (evs : list event) : world :=
  World (agent w) (trace w ++ evs).

Definition json_headers : list (string * string) :=
  [("Content-Type", "application/json")].

(** The POST of one attempt of [_make_request]. *)
Definition attempt_post (endpoint : string) (data : gmap string value)
    (w : world) : event :=
  EvPost endpoint data (timeout (agent w)) json_headers.

(** An event [_make_request] may cause for a request to [endpoint] with the
    body [data]: no uuid is drawn, no GET is made, and a POST is this
    request. *)
Definition request_event (endpoint : string) (data : gmap string value)
    (e : event) : Prop :=
  match e with
  | EvPost endpoint' data' _ _ => endpoint' = endpoint /\ data' = data
  | EvUuid4 | EvGet _ _ => False
  | EvSleep _ | EvLog _ _ => True
  end.

(** An event that leaves the session alone: it draws no uuid and, if it is a
    POST, it carries the session identifier [sid]. *)
Definition session_event (sid : string) (e : event) : Prop :=
  is_uuid4 e = false /\ carries_session sid e.

(** A computation that leaves the agent object as it is and causes only
    events that leave the session alone. *)
Definition keeps_session {A} (m : M A) : Prop :=
  forall w, exists r evs,
    m w = (r, after w evs)
    /\ Forall (session_event (session_id (agent w))) evs.

(** ** Vocabulary of the statements about the extractors and the formatter *)

(** The keywords [_extract_depth] looks for. *)
Definition depth_keywords : list string :=
  ["comprehensive"; "detailed"; "thorough"; "quick"; "brief"; "summary"].

(** The SWOT categories [_format_response] renders, with their headings. *)
Definition swot_categories : list (string * string) :=
  [("strengths", "## Strengths"); ("weaknesses", "## Weaknesses");
   ("opportunities", "## Opportunities"); ("threats", "## Threats")].

Section Rendering.
Variable E : env.

(** The lines of one category whose value is a list: the heading, a bullet
    for each of the first five items, and an empty line. *)
Definition category_lines (analysis : gmap string value)
    (category : string * string) : list string :=
  match analysis !! category.1 with
  | Some (VList items) => [category.2] ++ bullets E (take 5 items) ++ [""]
  | _ => []
  end.

(** The lines of the SWOT categories of a result. *)
Definition swot_lines (result_ : gmap string value) : list string :=
  if eq_str (get result_ "framework") "swot" then
    match get_or result_ "analysis" (VDict ∅) with
    | VDict analysis => concat (category_lines analysis <$> swot_categories)
    | _ => []
    end
  else [].

(** The lines of a list of recommendations: nothing for none, else the
    heading and a numbered line for each of the first five. *)
Definition recommendation_lines (recs : list value) : list string :=
  match recs with
  | [] => []
  | _ => "## Strategic Recommendations" :: numbered E (take 5 recs)
  end.

(** A result whose rendered SWOT categories, where present, are lists. *)
Definition categories_are_lists (result_ : gmap string value) : Prop :=
  forall analysis category v,
    eq_str (get result_ "framework") "swot" = true ->
    get_or result_ "analysis" (VDict ∅) = VDict analysis ->
    category ∈ swot_categories ->
    analysis !! category.1 = Some v ->
    exists items, v = VList items.
End Rendering.

(** ** Sample inputs *)

Definition sample_env : env :=
  Env (fun _ => "0b9d6f1c-5a3e-4c0e-9d2a-7f4e8a1b2c3d")
      (fun _ => Response 503 "Service Unavailable" (NotJson "Expecting value"))
      "2024-01-15"
      (fun v => match v with VStr s => s | _ => "?" end)
      (fun _ => "error").

(** The same, except that the first request comes back with 503 and every
    later one with 500. *)
Definition sample_env_500 : env :=
  Env (uuid4 sample_env)
      (fun n => match n with
                | O => Response 503 "Service Unavailable" (NotJson "Expecting value")
                | S _ => Response 500 "Internal Server Error" (NotJson "Expecting value")
                end)
      (today sample_env) (str_value sample_env) (str_exn sample_env).

(** A conversation of two user messages, the last of which says [text]. *)
Definition sample_messages (text : string) : messages :=
  MsgList [MsgDict (dict [("role", VStr "user"); ("content", VStr "Hello")]);
           MsgDict (dict [("role", VStr "user"); ("content", VStr text)])].

Definition sample_world (E : env) : world :=
  __init__ E "StrategyConsultant" "http://localhost:3001/" 30 None [].

Definition sample_task : gmap string value :=
  dict [("type", VStr "swot"); ("company", VStr "Tesla");
        ("framework", VStr "swot"); ("depth", VStr "standard")].

Definition sample_body : gmap string value :=
  dict [("company", VStr "Tesla"); ("framework", VStr "swot");
        ("depth", VStr "standard");
        ("sessionId", VStr (session_id (agent (sample_world sample_env))))].

Definition sample_recommendations : list value :=
  VStr <$> ["r1"; "r2"; "r3"; "r4"; "r5"; "r6"; "r7"].

Definition sample_result : gmap string value :=
  dict [("framework", VStr "swot");
        ("analysis",
         VDict (dict [("strengths",
                       VList (VStr <$> ["s1"; "s2"; "s3"; "s4"; "s5"; "s6"]));
                      ("threats", VList [VStr "t1"])]));
        ("recommendations", VList sample_recommendations)].

(** ** Vocabulary of the further statements about the client *)

(** The sleeps among the events, in order, by their seconds. *)
Fixpoint sleep_schedule (evs : list event) : list Z :=
  match evs with
  | [] => []
  | EvSleep seconds :: evs' => seconds :: sleep_schedule evs'
  | _ :: evs' => sleep_schedule evs'
  end.

(** The sleep after a 503 on attempt number [attempt], if one follows. *)
Definition backoff (attempt : nat) : option Z :=
  if Nat.ltb attempt (max_retries - 1)
  then Some (retry_delay * (Z.of_nat attempt + 1))%Z
  else None.

(** Events that are log entries only. *)
Definition is_log (e : event) : Prop :=
  match e with
  | EvLog _ _ => True
  | _ => False
  end.

(** What ends [_make_request] whatever attempts are left, with the value
    returned.  A 503 and a timeout end it only when no attempt is left. *)
Definition ends_with (o : outcome) : option value :=
  match o with
  | Response status_code _ json =>
      if Z.eqb status_code 200 then
        match json with
        | Json v => Some v
        | NotJson _ => Some VNone
        end
      else if Z.eqb status_code 503 then None
      else Some VNone
  | Timeout => None
  | ConnectionError | OtherError _ => Some VNone
  end.

(** The error log entry an outcome that ends the call leaves, if any. *)
Definition error_log (endpoint : string) (o : outcome) : list event :=
  match o with
  | Response status_code text json =>
      if Z.eqb status_code 200 then
        match json with
        | Json _ => []
        | NotJson err => [EvLog ERROR ("Unexpected error in request: " +:+ err)]
        end
      else [EvLog ERROR ("Request failed with status " +:+ str_of_int status_code
                         +:+ ": " +:+ text)]
  | Timeout => []
  | ConnectionError => [EvLog ERROR ("Connection error to " +:+ endpoint)]
  | OtherError err => [EvLog ERROR ("Unexpected error in request: " +:+ err)]
  end.

(** ** Vocabulary of the further statements about the extractors *)

(** [part] occurs in [text] as it stands. *)
Definition occurs_in (part text : string) : Prop :=
  exists before after, text = before +:+ part +:+ after.

(** Every character of [s] satisfies [p]. *)
Fixpoint all_chars (p : ascii -> bool) (s : string) : bool :=
  match s with
  | EmptyString => true
  | String c s' => p c && all_chars p s'
  end.

(** A successful match consumes a prefix [P] holds of and ends in a
    successful continuation on the rest. *)
Definition consumes {A} (P : string -> Prop) (s : string)
    (k : string -> option A) (x : A) : Prop :=
  exists p s', s = p +:+ s' /\ P p /\ k s' = Some x.

(** A group whose matches are never empty and made of characters of class
    [q] only. *)
Definition group_of_class (q : ascii -> bool) (r : Re.regex) : Prop :=
  forall (ic : bool) (n : nat) (s : string) (k : string -> option Re.matched) m,
    Re.exec ic n r s k = Some m ->
    consumes (fun p => p <> "" /\ all_chars (Re.cls_match ic q) p = true) s k m.

(** The characters that cannot be part of a competitor's name: the
    delimiters between names and the period that ends the list. *)
Definition name_separator (c : ascii) : bool :=
  Ascii.eqb c "," || Ascii.eqb c ";" || Ascii.eqb c ".".

(** The characters the delimiter of competitor names does not start at. *)
Definition not_delimiter (c : ascii) : bool :=
  negb (Ascii.eqb c "," || Ascii.eqb c ";").

(** ** Vocabulary of the further statements about the classifier *)

(** The three shapes of a task. *)
Definition company_scoped_shape (t : gmap string value) : Prop :=
  exists type_ framework company depth,
    t = dict [("type", VStr type_); ("company", VStr company);
              ("framework", VStr framework); ("depth", VStr depth)]
    /\ (type_, framework)
         ∈ [("swot", "swot"); ("analyze", "porters-five-forces");
            ("analyze", "swot")]
    /\ company <> ""
    /\ depth ∈ ["comprehensive"; "quick"; "standard"].

Definition market_entry_shape (t : gmap string value) : Prop :=
  exists industry region (company : option string),
    t = dict [("type", VStr "market_entry"); ("industry", VStr industry);
              ("region", VStr region); ("company", of_opt_str company)]
    /\ region ∈ title <$> regions
    /\ company <> Some "".

Definition competitive_shape (t : gmap string value) : Prop :=
  exists (company : option string) competitors,
    t = dict [("type", VStr "competitive"); ("company", of_opt_str company);
              ("competitors", of_strs competitors)]
    /\ company <> Some ""
    /\ Forall (fun name => name <> "") competitors.

(** ** Vocabulary of the further statements about the replies *)

(** The endpoint and the JSON body [_execute_task] has the analysis methods
    post for a task; none for a task of another type. *)
Definition request_for (self : client) (task : gmap string value)
  : option (string * gmap string value) :=
  let task_type := get task "type" in
  if eq_str task_type "analyze" || eq_str task_type "swot" then
    Some (service_url self +:+ "/api/analyze",
          dict [("company", get task "company");
                ("framework", get_or task "framework" (VStr "swot"));
                ("depth", get_or task "depth" (VStr "standard"));
                ("sessionId", VStr (session_id self))])
  else if eq_str task_type "market_entry" then
    Some (service_url self +:+ "/api/market-entry",
          dict [("industry", get task "industry");
                ("region", get task "region");
                ("company", get task "company");
                ("sessionId", VStr (session_id self))])
  else if eq_str task_type "competitive" then
    Some (service_url self +:+ "/api/competitive",
          dict [("company", get task "company");
                ("competitors", get_or task "competitors" (VList []));
                ("sessionId", VStr (session_id self))])
  else None.

(** The reply and the log entry of [strategy_reply] for an exception. *)
Definition error_reply (E : env) (e : exn) : value :=
  VStr ("I encountered an error while processing your request: " +:+ str_exn E e).

Definition error_entry (E : env) (e : exn) : event :=
  EvLog ERROR ("Error in strategy_reply: " +:+ str_exn E e).

(** The paths of the service the agent posts to. *)
Definition analysis_paths : list string :=
  ["/api/analyze"; "/api/market-entry"; "/api/competitive"].

(** An HTTP request as the agent [self] addresses it: a POST to one of the
    three analysis paths under its service URL, with its timeout and the
    JSON content type, or a GET of the health path with a timeout of 5. *)
Definition well_addressed (self : client) (e : event) : Prop :=
  match e with
  | EvPost endpoint _ timeout_ headers =>
      (exists path, path ∈ analysis_paths /\ endpoint = service_url self +:+ path)
      /\ timeout_ = timeout self /\ headers = json_headers
  | EvGet url timeout_ =>
      url = service_url self +:+ "/api/health" /\ timeout_ = 5%Z
  | _ => True
  end.

(** A computation that leaves the agent object as it is and causes only
    events [P] holds of. *)
Definition causes_only {A} (P : client -> event -> Prop) (m : M A) : Prop :=
  forall w, exists r evs,
    m w = (r, after w evs) /\ Forall (P (agent w)) evs.

(** ** Further sample inputs *)

(** A service that answers 503 once and then 200 with the sample result. *)
Definition sample_env_recovering : env :=
  Env (uuid4 sample_env)
      (fun n => match n with
                | O => Response 503 "Service Unavailable" (NotJson "Expecting value")
                | S _ => Response 200 "{...}" (Json (VDict sample_result))
                end)
      (today sample_env) (str_value sample_env) (str_exn sample_env).

(** A service that answers every request with 200 and the sample result. *)
Definition sample_env_ok : env :=
  Env (uuid4 sample_env)
      (fun _ => Response 200 "{...}" (Json (VDict sample_result)))
      (today sample_env) (str_value sample_env) (str_exn sample_env).

(** A service that answers every request with 200 and a page that is not
    JSON. *)
Definition sample_env_garbled : env :=
  Env (uuid4 sample_env)
      (fun _ => Response 200 "<html>" (NotJson "Expecting value"))
      (today sample_env) (str_value sample_env) (str_exn sample_env).

(** ** Vocabulary of the further statements about the formatter *)





(** ** Vocabulary of the statement about case *)

(** A pattern that matches the same whatever the case of the text, also
    without [re.IGNORECASE]: its literals have no letters and its classes
    do not tell the cases of a letter apart. *)
Fixpoint caseless (r : Re.regex) : Prop :=
  match r with
  | Re.Lit l => all_chars (fun c => negb (is_alpha c)) l = true
  | Re.Cls p | Re.Star p | Re.Plus p | Re.PlusLazy p =>
      forall a, p a = p (to_lower a)
  | Re.Cat r1 r2 | Re.Alt r1 r2 => caseless r1 /\ caseless r2
  | Re.Opt r1 => caseless r1
  | Re.Bol | Re.Eol => True
  end.

(** What of a task does not depend on how the text spells its names: the
    type, the framework, the depth and the region. *)
Definition task_kind (t : gmap string value) : value * value * value * value :=
  (get t "type", get t "framework", get t "depth", get t "region").

(** Two continuations that succeed alike on texts that differ in case only. *)
Definition alike {A B} (k : string -> option A) (k' : string -> option B) : Prop :=
  forall s t, lower s = lower t -> (is_Some (k s) <-> is_Some (k' t)).

Definition caseless_pattern (pat : Re.pattern) : Prop :=
  caseless (Re.pre pat) /\ caseless (Re.grp pat) /\ caseless (Re.post pat).

(* ===================================================================== *)
(** * The orchestrator's reading of a chat *)
(* ===================================================================== *)

(** [_extract_results_from_chat] of [ag2_integration/orchestrator.py]
    (class [BusinessAnalysisOrchestrator]): what is read from the messages
    of a group chat. *)

(** [content.lower()] *)
Definition value_lower (v : value) : result string :=
  match v with
  | VStr s => Ret (lower s)
  | _ => Raise AttributeError
  end.

(** [re.findall(pat, v)] *)
Definition value_findall (pat : Re.pattern) (v : value) : result (list string) :=
  match v with
  | VStr s => Ret (Re.findall pat s)
  | _ => Raise TypeError
  end.

Module Orchestrator.

(** The [dict] that [_extract_results_from_chat] builds and returns.  Its
    seven keys are those of the display it starts from and never change, so
    they are the fields of a record; the four analyses are [dict]s the loop
    adds keys to, and the recommendations a [list] it extends. *)
Record results := Results {
  company : string;
  timestamp : string;
  strategic_analysis : gmap string value;
  market_research : gmap string value;
  financial_analysis : gmap string value;
  risk_assessment : gmap string value;
  recommendations : list string
}.

(** [results["strategic_analysis"][key] = content] and its like *)
Definition set_strategic_analysis (key : string) (content : value)
    (r : results) : results :=
  Results (company r) (timestamp r) (<[key := content]> (strategic_analysis r))
          (market_research r) (financial_analysis r) (risk_assessment r)
          (recommendations r).

Definition set_market_research (key : string) (content : value)
    (r : results) : results :=
  Results (company r) (timestamp r) (strategic_analysis r)
          (<[key := content]> (market_research r)) (financial_analysis r)
          (risk_assessment r) (recommendations r).

Definition set_financial_analysis (key : string) (content : value)
    (r : results) : results :=
  Results (company r) (timestamp r) (strategic_analysis r) (market_research r)
          (<[key := content]> (financial_analysis r)) (risk_assessment r)
          (recommendations r).

Definition set_risk_assessment (key : string) (content : value)
    (r : results) : results :=
  Results (company r) (timestamp r) (strategic_analysis r) (market_research r)
          (financial_analysis r) (<[key := content]> (risk_assessment r))
          (recommendations r).

(** [results["recommendations"].extend(recs)] *)
Definition extend_recommendations (recs : list string) (r : results) : results :=
  Results (company r) (timestamp r) (strategic_analysis r) (market_research r)
          (financial_analysis r) (risk_assessment r) (recommendations r ++ recs).

(** [[^\n]] *)
Definition not_newline (c : ascii) : bool := negb (Ascii.eqb c newline).

(** [\d+\.\s+([^\n]+)] *)
Definition recommendation_pattern : Re.pattern :=
  Re.Pattern (cats [Re.Plus is_digit; Re.Lit "."; spaces1])
             (Re.Plus not_newline)
             (cats []).

(** The [if]/[elif] chain on the sender of a message. *)
Definition file_by_sender (sender content : value) (r : results)
  : result results :=
  if eq_str sender "StrategyConsultant" then
    content_lower ← value_lower content;
    if contains "swot" content_lower then
      Ret (set_strategic_analysis "swot" content r)
    else
      content_lower ← value_lower content;
      if contains "porter" content_lower then
        Ret (set_strategic_analysis "porters" content r)
      else Ret r
  else if eq_str sender "MarketResearcher" then
    Ret (set_market_research "insights" content r)
  else if eq_str sender "FinancialAnalyst" then
    Ret (set_financial_analysis "metrics" content r)
  else if eq_str sender "RiskAnalyst" then
    Ret (set_risk_assessment "risks" content r)
  else Ret r.

(** The body of the loop, for one message. *)
Definition read_message (message : gmap string value) (r : results)
  : result results :=
  let content := get_or message "content" (VStr "") in
  let sender := get_or message "name" (VStr "") in
  r ← file_by_sender sender content r;
  content_lower ← value_lower content;
  if contains "recommend" content_lower then
    recs ← value_findall recommendation_pattern content;
    Ret (extend_recommendations recs r)
  else Ret r.

(** [for message in messages: ...] *)
Fixpoint read_messages (messages : list (gmap string value)) (r : results)
  : result results :=
  match messages with
  | [] => Ret r
  | message :: messages' =>
      r ← read_message message r;
      read_messages messages' r
  end.

(** [now] is what [datetime.now().isoformat()] gives. *)
Definition _extract_results_from_chat (now : string)
    (messages : list (gmap string value)) : result results :=
  read_messages messages (Results "" now ∅ ∅ ∅ ∅ []).

End Orchestrator.

(** ** Vocabulary of the statements about the chat *)

(** The content of a message, and who sent it. *)
Definition content_of (message : gmap string value) : value :=
  get_or message "content" (VStr "").

Definition sent_by (sender : string) (message : gmap string value) : bool :=
  eq_str (get_or message "name" (VStr "")) sender.

(** A message whose content is a [str] (or that has none). *)
Definition has_text (message : gmap string value) : bool :=
  match content_of message with
  | VStr _ => true
  | _ => false
  end.

(** A content that mentions [word], in any case. *)
Definition mentions (word : string) (content : value) : bool :=
  match content with
  | VStr text => contains word (lower text)
  | _ => false
  end.

(** The contents of the messages of [sender], in the order of the chat. *)
Definition said_by (sender : string) (messages : list (gmap string value))
  : list value :=
  content_of <$> List.filter (sent_by sender) messages.

(** The [dict] with [key] bound to the last of [contents], if any. *)
Definition last_under (key : string) (contents : list value)
  : gmap string value :=
  match last contents with
  | Some content => {[ key := content ]}
  | None => ∅
  end.

Definition sample_chat : list (gmap string value) :=
  [ dict [("name", VStr "MarketResearcher");
          ("content", VStr "The market grows.")];
    dict [("name", VStr "StrategyConsultant");
          ("content", VStr ("SWOT done. I recommend:" +:+ String newline ""
                            +:+ "1. Expand to Asia" +:+ String newline ""
                            +:+ "2. Cut costs"))];
    dict [("name", VStr "MarketResearcher");
          ("content", VStr "The market grows fast.")] ].

(** The numbered lines of a message that mentions a recommendation. *)
Definition recommended (message : gmap string value) : list string :=
  match content_of message with
  | VStr text =>
      if contains "recommend" (lower text)
      then Re.findall Orchestrator.recommendation_pattern text
      else []
  | _ => []
  end.

(** What is read from [sample_chat]. *)
Definition sample_reading : Orchestrator.results :=
  Orchestrator.Results "" "2024-05-01T09:30:00"
    {[ "swot" := VStr ("SWOT done. I recommend:" +:+ String newline ""
                       +:+ "1. Expand to Asia" +:+ String newline ""
                       +:+ "2. Cut costs") ]}
    {[ "insights" := VStr "The market grows fast." ]}
    ∅ ∅
    ["Expand to Asia"; "Cut costs"].

(* ===================================================================== *)
(** * Facts about strings and the matcher *)
(* ===================================================================== *)

Lemma rstrip_cons_nonspace c s :
  is_space c = false -> rstrip (String c s) <> "".
Proof.
  intros Hc. simpl. rewrite Hc. destruct (rstrip s); discriminate.
Qed.

Lemma strip_cons_nonspace c s :
  is_space c = false -> strip (String c s) <> "".
Proof.
  intros Hc. unfold strip. simpl. rewrite Hc. by apply rstrip_cons_nonspace.
Qed.

Lemma str_take_cons n c s : str_take (S n) (String c s) = String c (str_take n s).
Proof. reflexivity. Qed.

(** A letter, in either case, is no space. *)
Lemma upper_class_nonspace ic a :
  Re.cls_match ic is_upper a = true -> is_space a = false.
Proof.
  destruct a as [[] [] [] [] [] [] [] []], ic; vm_compute; congruence.
Qed.

Section MatcherFacts.
Context {A : Type}.
Variables (ic : bool) (n : nat).
Implicit Types (s : string) (k : string -> option A) (x : A).

Lemma continues_shorter s s0 k x :
  continues s k x -> String.length s <= String.length s0 -> continues s0 k x.
Proof. intros (s' & Hk & Hl) Hle. exists s'. split; [done | lia]. Qed.

Lemma continues_here s k x : k s = Some x -> continues s k x.
Proof. intros Hk. by exists s. Qed.

Lemma continues_compose s k1 k2 x :
  continues s k1 x ->
  (forall s', k1 s' = Some x -> continues s' k2 x) ->
  continues s k2 x.
Proof.
  intros (s1 & Hk1 & Hl1) Hstep.
  destruct (Hstep s1 Hk1) as (s2 & Hk2 & Hl2).
  exists s2. split; [done | lia].
Qed.

Lemma lit_continues l s k x : Re.lit ic l s k = Some x -> continues s k x.
Proof.
  revert s. induction l as [|c l IH]; intros s; simpl.
  - apply continues_here.
  - destruct s as [|a s]; [done |].
    destruct (Re.chr_match ic c a); [| done].
    intros H. apply IH in H. eapply continues_shorter; [done | simpl; lia].
Qed.

Lemma star_continues p s k x : Re.star ic p s k = Some x -> continues s k x.
Proof.
  induction s as [|a s IH]; simpl.
  - apply continues_here.
  - destruct (Re.cls_match ic p a); [| apply continues_here].
    destruct (Re.star ic p s k) as [y|] eqn:Hs.
    + intros [= ->]. eapply continues_shorter; [by apply IH | simpl; lia].
    + apply continues_here.
Qed.

Lemma star_lazy_continues p s k x :
  Re.star_lazy ic p s k = Some x -> continues s k x.
Proof.
  induction s as [|a s IH]; simpl.
  - destruct (k "") eqn:Hk; [| done]. intros [= ->]. by apply continues_here.
  - destruct (k (String a s)) eqn:Hk.
    + intros [= ->]. by apply continues_here.
    + destruct (Re.cls_match ic p a); [| done].
      intros H. eapply continues_shorter; [by apply IH | simpl; lia].
Qed.

(** A class consumes one character, which it accepts. *)
Lemma one_inv p s k x :
  Re.one ic p s k = Some x ->
  exists a s', s = String a s' /\ Re.cls_match ic p a = true /\ k s' = Some x.
Proof.
  destruct s as [|a s]; simpl; [done |].
  destruct (Re.cls_match ic p a) eqn:Hp; [| done]. eauto.
Qed.

Lemma exec_continues r s k x : Re.exec ic n r s k = Some x -> continues s k x.
Proof.
  revert s k. induction r as [l|p|r1 IH1 r2 IH2|r1 IH1 r2 IH2|r IH|p|p|p| |];
    intros s k; simpl.
  - apply lit_continues.
  - intros (a & s' & -> & _ & Hk)%one_inv. exists s'. simpl. split; [done | lia].
  - intros H%IH1. eapply continues_compose; [done |]. intros s'. apply IH2.
  - destruct (Re.exec ic n r1 s k) eqn:H1.
    + intros [= ->]. by apply IH1.
    + apply IH2.
  - destruct (Re.exec ic n r s k) eqn:H1.
    + intros [= ->]. by apply IH.
    + apply continues_here.
  - apply star_continues.
  - intros (a & s' & -> & _ & Hk%star_continues)%one_inv.
    eapply continues_shorter; [done | simpl; lia].
  - intros (a & s' & -> & _ & Hk%star_lazy_continues)%one_inv.
    eapply continues_shorter; [done | simpl; lia].
  - destruct (Nat.eqb _ _); [apply continues_here | done].
  - destruct (Re.at_eol s); [apply continues_here | done].
Qed.

Lemma scan_inv (m : string -> option A) s x :
  Re.scan m s = Some x -> exists s', m s' = Some x.
Proof.
  induction s as [|a s IH]; simpl.
  - destruct (m "") eqn:Hm; [| done]. intros [= ->]. eauto.
  - destruct (m (String a s)) eqn:Hm; [intros [= ->]; eauto | apply IH].
Qed.
End MatcherFacts.

Lemma name_group_starts : starts_with_class is_upper name_group.
Proof.
  intros ic n s k m. unfold name_group. simpl.
  intros (a & s' & -> & Ha & H)%one_inv.
  exists a, s'. split_and!; [done.. |].
  apply one_inv in H as (b & s'' & -> & _ & H%star_lazy_continues).
  eapply continues_shorter; [done | simpl; lia].
Qed.

Lemma plus_starts p : starts_with_class p (Re.Plus p).
Proof.
  intros ic n s k m. simpl.
  intros (a & s' & -> & Ha & H%star_continues)%one_inv. eauto.
Qed.

(** The group of a match starts with the character its first class took. *)
Lemma match_here_group p ic n pat s m :
  starts_with_class p (Re.grp pat) ->
  Re.match_here ic n pat s = Some m ->
  exists a t, Re.group1 m = String a t /\ Re.cls_match ic p a = true.
Proof.
  intros Hgrp. unfold Re.match_here.
  intros (s1 & H & _)%exec_continues.
  apply Hgrp in H as (a & s1' & -> & Ha & (s2 & H & Hlen)).
  apply exec_continues in H as (s3 & [= <-] & _).
  exists a. simpl Re.group1.
  rewrite Nat.sub_succ_l, str_take_cons by done. eauto.
Qed.

Lemma search_group p ic pat text m :
  starts_with_class p (Re.grp pat) ->
  Re.search ic pat text = Some m ->
  exists a t, Re.group1 m = String a t /\ Re.cls_match ic p a = true.
Proof.
  intros Hgrp (s & H)%scan_inv. by eapply match_here_group.
Qed.

Lemma first_search_inv patterns text m :
  first_search patterns text = Some m ->
  exists pat, pat ∈ patterns /\ Re.search true pat text = Some m.
Proof.
  induction patterns as [|pat patterns IH]; simpl; [done |].
  destruct (Re.search true pat text) eqn:Hs.
  - intros [= ->]. exists pat. split; [left | done].
  - intros (pat' & Hin & H)%IH. exists pat'. split; [by right | done].
Qed.

Lemma company_patterns_group pat :
  pat ∈ company_patterns -> Re.grp pat = name_group.
Proof.
  unfold company_patterns. rewrite !elem_of_cons, elem_of_nil.
  intros [->|[->|[->|[->|[]]]]]; reflexivity.
Qed.

(** A company name, when one is extracted, is not the empty string: it is
    truthy in [if company:]. *)
Lemma extracted_company_nonempty text company :
  _extract_company_name text = Some company -> company <> "".
Proof.
  unfold _extract_company_name.
  destruct (first_search company_patterns text) as [m|] eqn:Hfirst.
  - intros [= <-].
    apply first_search_inv in Hfirst as (pat & Hin & Hs).
    apply (search_group is_upper) in Hs as (a & t & -> & Ha);
      [| rewrite (company_patterns_group _ Hin); apply name_group_starts].
    apply strip_cons_nonspace. by eapply upper_class_nonspace.
  - unfold Re.findall. simpl Re.findall_from.
    destruct (Re.scan _ text) as [m|] eqn:Hscan; [| done].
    intros [= <-].
    apply scan_inv in Hscan as (s & H).
    apply (match_here_group not_dquote) in H as (a & t & -> & _); [done |].
    apply plus_starts.
Qed.

(* ===================================================================== *)
(** * The classifier *)
(* ===================================================================== *)

Lemma any_in_app l1 l2 text :
  any_in (l1 ++ l2) text = any_in l1 text || any_in l2 text.
Proof. apply existsb_app. Qed.

Lemma first_search_none patterns text :
  (forall pat, pat ∈ patterns -> Re.search true pat text = None) ->
  first_search patterns text = None.
Proof.
  induction patterns as [|pat patterns IH]; intros Hall; simpl; [done |].
  rewrite (Hall pat) by left. apply IH. intros pat' Hin. apply Hall. by right.
Qed.

Lemma find_none {A} (f : A -> bool) (l : list A) :
  (forall x, x ∈ l -> f x = false) -> find f l = None.
Proof.
  induction l as [|x l IH]; intros Hall; simpl; [done |].
  rewrite (Hall x) by left. apply IH. intros y Hin. apply Hall. by right.
Qed.

(** Tried on a table, the first rule whose keyword condition holds decides,
    whatever rules come after it. *)
Lemma first_match_decides pre r later text :
  Forall (fun r' => keyword_condition r' (lower text) = false) pre ->
  keyword_condition r (lower text) = true ->
  first_match (pre ++ r :: later) text = yields r text.
Proof.
  intros Hpre Hr. induction Hpre as [|r' pre Hr' _ IH]; simpl.
  - by rewrite Hr.
  - by rewrite Hr'.
Qed.

Lemma company_scoped_task_eq type_ framework text :
  company_scoped_task type_ framework text
  = let company := of_opt_str (_extract_company_name text) in
    if truthy company then
      Some (dict [("type", VStr type_); ("company", company);
                  ("framework", VStr framework);
                  ("depth", VStr (_extract_depth text))])
    else None.
Proof.
  unfold company_scoped_task.
  destruct (_extract_company_name text) as [c|]; simpl; [| done].
  by destruct (String.eqb c "").
Qed.

Lemma company_scoped_task_none type_ framework text :
  company_scoped_task type_ framework text = None
  <-> _extract_company_name text = None.
Proof.
  unfold company_scoped_task.
  destruct (_extract_company_name text) as [c|] eqn:H; [| done].
  apply extracted_company_nonempty in H.
  destruct (String.eqb_spec c ""); [done |]. split; discriminate.
Qed.

(** The [if]/[elif] chain of the source is the rule table tried from the
    top. *)
Lemma classify_first_match text : classify text = first_match rule_table text.
Proof.
  unfold classify, rule_table, first_match. cbn [keyword_condition yields].
  rewrite !company_scoped_task_eq. cbv zeta.
  destruct (any_in swot_keywords (lower text)); [done |].
  destruct (any_in five_forces_keywords (lower text)); [done |].
  destruct (any_in market_entry_keywords (lower text)); [done |].
  destruct (any_in competitive_keywords (lower text)); [done |].
  destruct (contains "analyze" (lower text)); [| done]. simpl.
  by destruct (truthy (of_opt_str (_extract_company_name text))).
Qed.

(** The classifier runs on the text of the last message. *)
Lemma parse_message_classifies msgs text :
  message_text msgs = VStr text ->
  _parse_message_for_task msgs = Ret (classify text).
Proof. intros H. unfold _parse_message_for_task. by rewrite H. Qed.

(** C1.  The classifier tries its keyword rules in the fixed order SWOT,
    Five Forces, market entry, competitive analysis, generic "analyze": on
    a text it is the rule table tried from the top, and the first rule whose
    keyword condition holds for the lower-cased text determines the result,
    no matter which rules stand after it in the table. *)
Theorem C1_first_matching_rule_decides msgs text pre r post :
  message_text msgs = VStr text ->
  rule_table = pre ++ r :: post ->
  Forall (fun r' => keyword_condition r' (lower text) = false) pre ->
  keyword_condition r (lower text) = true ->
  rule_id <$> rule_table
    = [SwotRule; FiveForcesRule; MarketEntryRule; CompetitiveRule;
       GenericAnalyzeRule]
  /\ _parse_message_for_task msgs = Ret (first_match rule_table text)
  /\ _parse_message_for_task msgs = Ret (yields r text)
  /\ forall later, first_match (pre ++ r :: later) text = yields r text.
Proof.
  intros Htext Htable Hpre Hr.
  rewrite (parse_message_classifies _ _ Htext), classify_first_match.
  split_and!.
  - reflexivity.
  - reflexivity.
  - rewrite Htable. f_equal. by apply first_match_decides.
  - intros later. by apply first_match_decides.
Qed.

Lemma dict_task_lookups type_ company framework depth :
  let t := dict [("type", VStr type_); ("company", company);
                 ("framework", VStr framework); ("depth", depth)] in
  t !! "type" = Some (VStr type_) /\ t !! "framework" = Some (VStr framework)
  /\ t !! "company" = Some company.
Proof. unfold dict. cbn. split_and!; by simplify_map_eq. Qed.

(** C4.  A text that contains a SWOT keyword (in any case) and from which a
    company name is extracted is classified as a task of type [swot] whose
    framework is [swot], for that company. *)
Theorem C4_swot_keyword_and_company_give_swot_task msgs text company :
  message_text msgs = VStr text ->
  any_in swot_keywords (lower text) = true ->
  _extract_company_name text = Some company ->
  exists t : gmap string value,
    _parse_message_for_task msgs = Ret (Some t)
    /\ t !! "type" = Some (VStr "swot")
    /\ t !! "framework" = Some (VStr "swot")
    /\ t !! "company" = Some (VStr company).
Proof.
  intros Htext Hkw Hco. rewrite (parse_message_classifies _ _ Htext).
  unfold classify. cbv zeta. rewrite Hkw, Hco. simpl of_opt_str.
  apply extracted_company_nonempty in Hco.
  replace (truthy (VStr company)) with true
    by (simpl; by destruct (String.eqb_spec company "")).
  eexists. split; [reflexivity |]. apply dict_task_lookups.
Qed.

Lemma recognized_keywords_split text :
  any_in recognized_keywords text
  = any_in swot_keywords text || any_in five_forces_keywords text
    || any_in market_entry_keywords text || any_in competitive_keywords text
    || contains "analyze" text.
Proof.
  unfold recognized_keywords. rewrite !any_in_app.
  unfold any_in at 5. simpl existsb. rewrite orb_false_r, !orb_assoc. done.
Qed.

Lemma classify_none_iff text :
  classify text = None
  <-> any_in recognized_keywords (lower text) = false
      \/ exists r, applicable_rule text = Some r
           /\ company_scoped (rule_id r) = true
           /\ _extract_company_name text = None.
Proof.
  rewrite classify_first_match, recognized_keywords_split.
  unfold applicable_rule, rule_table, first_match, find.
  cbn [keyword_condition yields].
  destruct (any_in swot_keywords (lower text));
    [| destruct (any_in five_forces_keywords (lower text));
       [| destruct (any_in market_entry_keywords (lower text));
          [| destruct (any_in competitive_keywords (lower text));
             [| destruct (contains "analyze" (lower text))]]]];
    simpl; rewrite ?company_scoped_task_none;
    split; try done;
    try (intros H; right; eexists; split_and!; [reflexivity | done..]);
    try (intros [[=] | (r & [= <-] & Hsc & Hex)]; done);
    try (by left).
Qed.

(** C5.  The classifier yields no task exactly when no recognized keyword
    occurs in the text, or the rule that applies is company-scoped (SWOT,
    Five Forces, generic "analyze") and no company name is extracted; in
    particular a text without any recognized keyword yields no task. *)
Theorem C5_no_task_iff msgs text :
  message_text msgs = VStr text ->
  (_parse_message_for_task msgs = Ret None
   <-> any_in recognized_keywords (lower text) = false
       \/ exists r, applicable_rule text = Some r
            /\ company_scoped (rule_id r) = true
            /\ _extract_company_name text = None)
  /\ (any_in recognized_keywords (lower text) = false ->
      _parse_message_for_task msgs = Ret None).
Proof.
  intros Htext. rewrite (parse_message_classifies _ _ Htext).
  assert (Hret : Ret (classify text) = Ret None <-> classify text = None)
    by (split; congruence).
  rewrite Hret, classify_none_iff. split; [done |]. by left.
Qed.

(** C10.  When the SWOT or the Five Forces keyword rule matches and no
    company name is extracted, the classifier yields no task, whatever
    market-entry or competitive-analysis keywords the text also contains. *)
Theorem C10_failed_company_rule_suppresses_later_rules msgs text :
  message_text msgs = VStr text ->
  any_in swot_keywords (lower text) = true
  \/ any_in five_forces_keywords (lower text) = true ->
  _extract_company_name text = None ->
  _parse_message_for_task msgs = Ret None.
Proof.
  intros Htext Hkw Hex. rewrite (parse_message_classifies _ _ Htext). f_equal.
  unfold classify. cbv zeta. rewrite Hex.
  destruct (any_in swot_keywords (lower text)); [done |].
  by destruct Hkw as [[=] | ->].
Qed.

(** C8.  When none of their patterns matches, the extractors return their
    fixed defaults: the industry "technology", the region "Global" and the
    depth "standard". *)
Theorem C8_default_fallbacks text :
  ((forall pat, pat ∈ industry_patterns -> Re.search true pat text = None) ->
   _extract_industry text = "technology")
  /\ ((forall region, region ∈ regions -> contains region (lower text) = false) ->
      _extract_region text = "Global")
  /\ (any_in depth_keywords (lower text) = false ->
      _extract_depth text = "standard").
Proof.
  split_and!.
  - intros H. unfold _extract_industry. by rewrite first_search_none.
  - intros H. unfold _extract_region. cbv zeta. by rewrite find_none.
  - unfold any_in, depth_keywords, _extract_depth. simpl existsb. cbv zeta.
    rewrite orb_false_r.
    repeat (rewrite orb_false_iff; intros [? Hrest]; revert Hrest).
    intros H6.
    repeat match goal with H : _ = false |- _ => rewrite H; clear H end.
    done.
Qed.

(* ===================================================================== *)
(** * The service client *)
(* ===================================================================== *)

Lemma trace_after w evs : trace (after w evs) = trace w ++ evs.
Proof. reflexivity. Qed.

Lemma agent_after w evs : agent (after w evs) = agent w.
Proof. reflexivity. Qed.

Lemma requests_made_app t1 t2 :
  requests_made (t1 ++ t2) = requests_made t1 + requests_made t2.
Proof. unfold requests_made. by rewrite filter_app, length_app. Qed.

Lemma after_after w evs1 evs2 : after (after w evs1) evs2 = after w (evs1 ++ evs2).
Proof. unfold after. simpl. by rewrite app_assoc. Qed.

Lemma after_nil w : after w [] = w.
Proof. destruct w. unfold after. simpl. by rewrite app_nil_r. Qed.

Section ClientFacts.
Variable E : env.
Implicit Types (w : world) (data : gmap string value).

Ltac run_step :=
  cbn [attempts];
  unfold mbind, M_bind, get_self, session_post, sleep, log, emit, mret, M_ret;
  cbn beta iota.

Lemma attempts_503 endpoint data attempt todo w :
  status_of (http E (requests_made (trace w))) = Some 503%Z ->
  attempts E endpoint data (attempt :: todo) w
  = attempts E endpoint data todo
      (after w (attempt_post endpoint data w
                :: if Nat.ltb attempt (max_retries - 1)
                   then [EvSleep (retry_delay * (Z.of_nat attempt + 1))]
                   else [])).
Proof.
  intros H. run_step.
  destruct (http E (requests_made (trace w))); simplify_eq/=.
  unfold after. destruct (Nat.ltb attempt _); simpl; by rewrite <- ?app_assoc.
Qed.

Lemma attempts_timeout endpoint data attempt todo w :
  http E (requests_made (trace w)) = Timeout ->
  Nat.ltb attempt (max_retries - 1) = true ->
  attempts E endpoint data (attempt :: todo) w
  = attempts E endpoint data todo
      (after w [attempt_post endpoint data w;
                EvLog ERROR ("Request timeout after "
                             +:+ str_of_int (timeout (agent w)) +:+ " seconds")]).
Proof.
  intros H Hlt. run_step. rewrite H, Hlt. cbn.
  unfold after; simpl. by rewrite <- app_assoc.
Qed.

Lemma attempts_aborting endpoint data attempt todo w :
  aborting (http E (requests_made (trace w))) ->
  exists msg,
    attempts E endpoint data (attempt :: todo) w
    = (VNone, after w [attempt_post endpoint data w; EvLog ERROR msg]).
Proof.
  intros [H | (c & H & H200 & H503)]; run_step.
  - rewrite H. cbn. eexists. unfold after. simpl. by rewrite <- app_assoc.
  - destruct (http E (requests_made (trace w))); simplify_eq/=.
    rewrite (proj2 (Z.eqb_neq _ _) H200), (proj2 (Z.eqb_neq _ _) H503).
    eexists. unfold after. simpl. by rewrite <- app_assoc.
Qed.

Lemma requests_made_after w evs :
  requests_made (trace (after w evs)) = requests_made (trace w) + requests_made evs.
Proof. apply requests_made_app. Qed.

(** C2.  When every POST of a call of [_make_request] comes back with
    status 503, the call makes exactly three POSTs, sleeps 1 time unit
    after the first and 2 after the second, and returns [None]. *)
Theorem C2_three_attempts_on_503 endpoint data w :
  (forall j, j < max_retries ->
     status_of (http E (requests_made (trace w) + j)) = Some 503%Z) ->
  _make_request E endpoint data w
  = (VNone,
     after w [attempt_post endpoint data w; EvSleep 1;
              attempt_post endpoint data w; EvSleep 2;
              attempt_post endpoint data w]).
Proof.
  intros H. unfold _make_request. simpl seq.
  rewrite attempts_503
    by (rewrite <- (Nat.add_0_r (requests_made _)); apply H; vm_compute; lia).
  rewrite attempts_503
    by (rewrite requests_made_after; apply H; vm_compute; lia).
  rewrite attempts_503
    by (rewrite !requests_made_after, <- Nat.add_assoc; apply H; vm_compute; lia).
  simpl. by rewrite !after_after.
Qed.

(** Attempts [a], [a+1], ... up to the last: after [k] retried outcomes an
    aborting one ends the loop. *)
Lemma attempts_retried_then_aborting endpoint data k : forall a w,
  a + k < max_retries ->
  (forall j, j < k -> retried (http E (requests_made (trace w) + j))) ->
  aborting (http E (requests_made (trace w) + k)) ->
  exists evs msg,
    attempts E endpoint data (seq a (max_retries - a)) w
    = (VNone, after w (evs ++ [attempt_post endpoint data w; EvLog ERROR msg]))
    /\ length (posts evs) = k.
Proof.
  induction k as [|k IH]; intros a w Ha Hretried Habort.
  - rewrite Nat.add_0_r in Habort.
    replace (max_retries - a) with (S (max_retries - S a)) by lia. cbn [seq].
    destruct (attempts_aborting endpoint data a (seq (S a) (max_retries - S a)) w Habort)
      as [msg ->].
    by exists [], msg.
  - replace (max_retries - a) with (S (max_retries - S a)) by lia. cbn [seq].
    assert (Hlt : Nat.ltb a (max_retries - 1) = true)
      by (apply Nat.ltb_lt; lia).
    assert (exists evs1,
      attempts E endpoint data (a :: seq (S a) (max_retries - S a)) w
      = attempts E endpoint data (seq (S a) (max_retries - S a)) (after w evs1)
      /\ requests_made evs1 = 1 /\ length (posts evs1) = 1)
      as (evs1 & -> & Hreq & Hposts).
    { pose proof (Hretried 0 ltac:(lia)) as H0. rewrite Nat.add_0_r in H0.
      destruct H0 as [H0 | H0].
      - rewrite attempts_503, Hlt by done. by eexists.
      - rewrite attempts_timeout by done. by eexists. }
    destruct (IH (S a) (after w evs1)) as (evs & msg & -> & Hlen).
    + lia.
    + intros j Hj. rewrite requests_made_after, Hreq.
      replace (requests_made (trace w) + 1 + j)
        with (requests_made (trace w) + S j) by lia.
      apply Hretried. lia.
    + rewrite requests_made_after, Hreq.
      by replace (requests_made (trace w) + 1 + k)
        with (requests_made (trace w) + S k) by lia.
    + exists (evs1 ++ evs), msg. rewrite after_after, app_assoc. split; [done |].
      unfold posts in *. rewrite filter_app, length_app. lia.
Qed.

(** C3.  A POST that comes back with a status other than 200 and 503, or
    fails with a connection error, ends the call at once: the call returns
    [None], and that POST is the last one it makes. *)
Theorem C3_other_status_or_connection_error_aborts endpoint data w k :
  k < max_retries ->
  (forall j, j < k -> retried (http E (requests_made (trace w) + j))) ->
  aborting (http E (requests_made (trace w) + k)) ->
  exists evs msg,
    _make_request E endpoint data w
    = (VNone, after w (evs ++ [attempt_post endpoint data w; EvLog ERROR msg]))
    /\ length (posts evs) = k.
Proof.
  intros Hk Hretried Habort. unfold _make_request.
  replace max_retries with (max_retries - 0) at 1 by (unfold max_retries; lia).
  by apply attempts_retried_then_aborting.
Qed.

(** What a run of the loop leaves behind: the agent as it was, and events
    of this request only. *)
Lemma attempts_run endpoint data todo : forall w,
  exists r evs,
    attempts E endpoint data todo w = (r, after w evs)
    /\ Forall (request_event endpoint data) evs
    /\ (todo <> [] -> exists evs', evs = attempt_post endpoint data w :: evs').
Proof.
  induction todo as [|attempt todo IH]; intros w.
  { exists VNone, []. by rewrite after_nil. }
  assert (Hpost : request_event endpoint data (attempt_post endpoint data w))
    by done.
  assert (Hcontinue : forall evs1,
    Forall (request_event endpoint data) evs1 ->
    exists r evs,
      attempts E endpoint data todo (after w (attempt_post endpoint data w :: evs1))
      = (r, after w evs)
      /\ Forall (request_event endpoint data) evs
      /\ (attempt :: todo <> [] -> exists evs', evs = attempt_post endpoint data w :: evs')).
  { intros evs1 Hevs1.
    destruct (IH (after w (attempt_post endpoint data w :: evs1)))
      as (r & evs & -> & Hevs & _).
    exists r, (attempt_post endpoint data w :: evs1 ++ evs).
    rewrite after_after. split_and!; [done | | by eexists].
    constructor; [done |]. by apply Forall_app. }
  assert (Hstop : forall (r : value) evs1,
    Forall (request_event endpoint data) evs1 ->
    exists r' evs,
      (r, after w (attempt_post endpoint data w :: evs1)) = (r', after w evs)
      /\ Forall (request_event endpoint data) evs
      /\ (attempt :: todo <> [] -> exists evs', evs = attempt_post endpoint data w :: evs')).
  { intros r evs1 Hevs1. exists r, (attempt_post endpoint data w :: evs1).
    split_and!; [done | by constructor | by eexists]. }
  destruct (http E (requests_made (trace w))) as [c text json| | |err] eqn:Ho.
  - destruct (Z.eqb_spec c 503) as [-> | H503].
    { rewrite attempts_503 by (by rewrite Ho).
      apply Hcontinue. destruct (Nat.ltb _ _); by repeat constructor. }
    run_step. rewrite Ho. unfold attempt_post, after, json_headers in Hstop.
    destruct (Z.eqb c 200).
    + destruct json as [v | err]; cbn; rewrite <- ?app_assoc.
      * by apply (Hstop v []).
      * by apply (Hstop VNone [EvLog ERROR _]); repeat constructor.
    + rewrite (proj2 (Z.eqb_neq _ _) H503). cbn. rewrite <- app_assoc.
      by apply (Hstop VNone [EvLog ERROR _]); repeat constructor.
  - destruct (Nat.ltb attempt (max_retries - 1)) eqn:Hlt.
    + rewrite attempts_timeout by done. apply Hcontinue. by repeat constructor.
    + run_step. rewrite Ho, Hlt. cbn. rewrite <- app_assoc.
      by apply (Hstop VNone [EvLog ERROR _]); repeat constructor.
  - run_step. rewrite Ho. cbn. rewrite <- app_assoc.
    by apply (Hstop VNone [EvLog ERROR _]); repeat constructor.
  - run_step. rewrite Ho. cbn. rewrite <- app_assoc.
    by apply (Hstop VNone [EvLog ERROR _]); repeat constructor.
Qed.

Lemma make_request_run endpoint data w :
  exists r evs,
    _make_request E endpoint data w
    = (r, after w (attempt_post endpoint data w :: evs))
    /\ Forall (request_event endpoint data) evs.
Proof.
  unfold _make_request.
  destruct (attempts_run endpoint data (seq 0 max_retries) w)
    as (r & evs & -> & Hevs & Hfirst).
  destruct Hfirst as [evs' ->]; [done |].
  apply Forall_cons in Hevs as [_ Hevs]. eauto.
Qed.

Lemma analyze_company_eq company framework depth w :
  analyze_company E company framework depth w
  = _make_request E (service_url (agent w) +:+ "/api/analyze")
      (dict [("company", company); ("framework", framework); ("depth", depth);
             ("sessionId", VStr (session_id (agent w)))]) w.
Proof. reflexivity. Qed.

Lemma analyze_market_entry_eq industry region company w :
  analyze_market_entry E industry region company w
  = _make_request E (service_url (agent w) +:+ "/api/market-entry")
      (dict [("industry", industry); ("region", region); ("company", company);
             ("sessionId", VStr (session_id (agent w)))]) w.
Proof. reflexivity. Qed.

Lemma analyze_competitive_eq company competitors w :
  analyze_competitive E company competitors w
  = _make_request E (service_url (agent w) +:+ "/api/competitive")
      (dict [("company", company); ("competitors", competitors);
             ("sessionId", VStr (session_id (agent w)))]) w.
Proof. reflexivity. Qed.

Lemma request_event_posts_to endpoint data e :
  request_event endpoint data e -> posts_to endpoint e.
Proof. destruct e; simpl; tauto. Qed.

Lemma make_request_posts_to endpoint data w :
  exists r evs,
    _make_request E endpoint data w
    = (r, after w (EvPost endpoint data (timeout (agent w)) json_headers :: evs))
    /\ Forall (posts_to endpoint) evs.
Proof.
  destruct (make_request_run endpoint data w) as (r & evs & -> & Hevs).
  exists r, evs. split; [done |].
  eapply Forall_impl; [done |]. apply request_event_posts_to.
Qed.

(** C6.  The path a task is posted to is a function of its type alone:
    [analyze] and [swot] go to /api/analyze, [market_entry] to
    /api/market-entry, [competitive] to /api/competitive; a task of any
    other type causes no event at all and the result [None]. *)
Theorem C6_endpoint_by_task_type task w :
  endpoint_path (VStr "analyze") = Some "/api/analyze"
  /\ endpoint_path (VStr "swot") = Some "/api/analyze"
  /\ endpoint_path (VStr "market_entry") = Some "/api/market-entry"
  /\ endpoint_path (VStr "competitive") = Some "/api/competitive"
  /\ (forall v, ~ v ∈ VStr <$> ["analyze"; "swot"; "market_entry"; "competitive"] ->
       endpoint_path v = None)
  /\ match endpoint_path (get task "type") with
     | Some path =>
         let endpoint := service_url (agent w) +:+ path in
         exists r data evs,
           _execute_task E task w
           = (r, after w (EvPost endpoint data (timeout (agent w)) json_headers
                          :: evs))
           /\ Forall (posts_to endpoint) evs
     | None => _execute_task E task w = (VNone, w)
     end.
Proof.
  split_and!; [done.. | |].
  - intros v Hv. destruct v as [| | | |s| |]; try done.
    unfold endpoint_path, eq_str.
    destruct (String.eqb_spec s "analyze") as [-> | _]; [set_solver |].
    destruct (String.eqb_spec s "swot") as [-> | _]; [set_solver |].
    destruct (String.eqb_spec s "market_entry") as [-> | _]; [set_solver |].
    destruct (String.eqb_spec s "competitive") as [-> | _]; [set_solver |].
    done.
  - unfold endpoint_path, _execute_task. cbv zeta.
    destruct (eq_str (get task "type") "analyze" || eq_str (get task "type") "swot").
    { rewrite analyze_company_eq.
      destruct (make_request_posts_to (service_url (agent w) +:+ "/api/analyze")
                  (dict [("company", get task "company");
                         ("framework", get_or task "framework" (VStr "swot"));
                         ("depth", get_or task "depth" (VStr "standard"));
                         ("sessionId", VStr (session_id (agent w)))]) w)
        as (r & evs & -> & Hevs).
      eauto. }
    destruct (eq_str (get task "type") "market_entry").
    { rewrite analyze_market_entry_eq.
      destruct (make_request_posts_to (service_url (agent w) +:+ "/api/market-entry")
                  (dict [("industry", get task "industry");
                         ("region", get task "region");
                         ("company", get task "company");
                         ("sessionId", VStr (session_id (agent w)))]) w)
        as (r & evs & -> & Hevs).
      eauto. }
    destruct (eq_str (get task "type") "competitive"); [| done].
    rewrite analyze_competitive_eq.
    destruct (make_request_posts_to (service_url (agent w) +:+ "/api/competitive")
                (dict [("company", get task "company");
                       ("competitors", get_or task "competitors" (VList []));
                       ("sessionId", VStr (session_id (agent w)))]) w)
      as (r & evs & -> & Hevs).
    eauto.
Qed.

Lemma keeps_session_ret {A} (a : A) : keeps_session (mret a).
Proof. intros w. exists a, []. by rewrite after_nil. Qed.

Lemma keeps_session_bind {A B} (m : M A) (f : A -> M B) :
  keeps_session m -> (forall a, keeps_session (f a)) -> keeps_session (m ≫= f).
Proof.
  intros Hm Hf w. unfold mbind, M_bind.
  destruct (Hm w) as (a & evs1 & -> & Hevs1).
  destruct (Hf a (after w evs1)) as (b & evs2 & -> & Hevs2).
  exists b, (evs1 ++ evs2). rewrite after_after. split; [done |].
  by apply Forall_app.
Qed.

Lemma keeps_session_log level msg : keeps_session (log level msg).
Proof. intros w. exists tt, [EvLog level msg]. by repeat constructor. Qed.

Lemma keeps_session_get_self : keeps_session get_self.
Proof. intros w. exists (agent w), []. by rewrite after_nil. Qed.

Lemma keeps_session_get url timeout_ : keeps_session (session_get E url timeout_).
Proof. intros w. eexists _, [EvGet url timeout_]. by repeat constructor. Qed.

Lemma request_event_session endpoint data sid e :
  data !! "sessionId" = Some (VStr sid) ->
  request_event endpoint data e -> session_event sid e.
Proof.
  intros Hsid. unfold session_event.
  destruct e; simpl; intuition congruence.
Qed.

Lemma make_request_keeps_session endpoint data w :
  data !! "sessionId" = Some (VStr (session_id (agent w))) ->
  exists r evs,
    _make_request E endpoint data w = (r, after w evs)
    /\ Forall (session_event (session_id (agent w))) evs.
Proof.
  intros Hsid.
  destruct (make_request_run endpoint data w) as (r & evs & -> & Hevs).
  eexists _, _. split; [done |].
  constructor; [done |].
  eapply Forall_impl; [done |]. intros e. by apply request_event_session.
Qed.

Lemma keeps_session_analyze_company company framework depth :
  keeps_session (analyze_company E company framework depth).
Proof.
  intros w. rewrite analyze_company_eq.
  apply make_request_keeps_session. unfold dict. cbn. apply lookup_insert_eq.
Qed.

Lemma keeps_session_analyze_market_entry industry region company :
  keeps_session (analyze_market_entry E industry region company).
Proof.
  intros w. rewrite analyze_market_entry_eq.
  apply make_request_keeps_session. unfold dict. cbn. apply lookup_insert_eq.
Qed.

Lemma keeps_session_analyze_competitive company competitors :
  keeps_session (analyze_competitive E company competitors).
Proof.
  intros w. rewrite analyze_competitive_eq.
  apply make_request_keeps_session. unfold dict. cbn. apply lookup_insert_eq.
Qed.

Lemma keeps_session_execute_task task : keeps_session (_execute_task E task).
Proof.
  unfold _execute_task. cbv zeta.
  repeat case_match;
    auto using keeps_session_analyze_company, keeps_session_analyze_market_entry,
      keeps_session_analyze_competitive, keeps_session_ret.
Qed.

Lemma keeps_session_check_service_health :
  keeps_session (check_service_health E).
Proof.
  unfold check_service_health.
  apply keeps_session_bind; [apply keeps_session_get_self | intros self].
  apply keeps_session_bind; [apply keeps_session_get | intros o].
  destruct o; apply keeps_session_ret.
Qed.

Lemma keeps_session_strategy_reply msgs : keeps_session (strategy_reply E msgs).
Proof.
  assert (Herr : forall e,
    keeps_session (log ERROR ("Error in strategy_reply: " +:+ str_exn E e);;
                   mret (VStr ("I encountered an error while processing your request: "
                               +:+ str_exn E e)))).
  { intros e. apply keeps_session_bind; [apply keeps_session_log |].
    intros _. apply keeps_session_ret. }
  unfold strategy_reply. cbv zeta.
  destruct (_parse_message_for_task msgs) as [[t|]|e];
    [| apply keeps_session_ret | apply Herr].
  destruct (negb (truthy (VDict t))); [apply keeps_session_ret |].
  apply keeps_session_bind; [apply keeps_session_execute_task | intros r].
  destruct (truthy r); [| apply keeps_session_ret].
  destruct (_format_response E r t); [apply keeps_session_ret | apply Herr].
Qed.

Lemma keeps_session_run_call c : keeps_session (run_call E c).
Proof.
  destruct c; simpl;
    (apply keeps_session_bind; [| intros; apply keeps_session_ret]);
    auto using keeps_session_strategy_reply, keeps_session_analyze_company,
      keeps_session_analyze_market_entry, keeps_session_analyze_competitive,
      keeps_session_execute_task, keeps_session_check_service_health.
Qed.

Lemma keeps_session_run_calls cs : keeps_session (run_calls E cs).
Proof.
  induction cs as [|c cs IH]; simpl; [apply keeps_session_ret |].
  apply keeps_session_bind; [apply keeps_session_run_call | by intros].
Qed.

Lemma uuids_drawn_app t1 t2 :
  uuids_drawn (t1 ++ t2) = uuids_drawn t1 + uuids_drawn t2.
Proof. unfold uuids_drawn. by rewrite filter_app, length_app. Qed.

Lemma session_events_draw_no_uuid sid evs :
  Forall (session_event sid) evs -> uuids_drawn evs = 0.
Proof.
  unfold uuids_drawn. induction 1 as [|e evs [He _] _ IH]; [done |].
  rewrite filter_cons, He. simpl. exact IH.
Qed.

(** C9.  The session identifier is generated once, when the agent is
    constructed: construction draws one uuid and stores it.  Whatever
    calls are made on the agent afterwards, they leave the stored
    identifier unchanged, draw no further uuid, and every POST they make
    carries the identifier as the [sessionId] of its JSON body. *)
Theorem C9_session_id_generated_once_and_sent name_ url timeout_ kw t0 cs :
  let w0 := __init__ E name_ url timeout_ kw t0 in
  let w := (run_calls E cs w0).2 in
  session_id (agent w0) = uuid4 E (uuids_drawn t0)
  /\ uuids_drawn (trace w0) = S (uuids_drawn t0)
  /\ session_id (agent w) = session_id (agent w0)
  /\ uuids_drawn (trace w) = S (uuids_drawn t0)
  /\ exists evs, trace w = trace w0 ++ evs
       /\ Forall (carries_session (session_id (agent w0))) evs.
Proof.
  intros w0 w.
  assert (Hsid : session_id (agent w0) = uuid4 E (uuids_drawn t0)) by done.
  assert (Hinit : uuids_drawn (trace w0) = S (uuids_drawn t0)).
  { unfold w0, __init__. simpl trace. rewrite uuids_drawn_app.
    unfold uuids_drawn at 2. simpl. lia. }
  destruct (keeps_session_run_calls cs w0) as ([] & evs & Hrun & Hevs).
  subst w. clearbody w0. rewrite Hrun. cbn [snd].
  rewrite agent_after, trace_after. split_and!; [done.. | |].
  - rewrite uuids_drawn_app, Hinit, (session_events_draw_no_uuid _ _ Hevs). lia.
  - exists evs. split; [done |].
    eapply Forall_impl; [done |]. by intros e [_ He].
Qed.
End ClientFacts.

(* ===================================================================== *)
(** * The formatter *)
(* ===================================================================== *)

Section FormatFacts.
Variable E : env.

Lemma category_of_list analysis key heading response :
  (forall v, analysis !! key = Some v -> exists items, v = VList items) ->
  category E analysis key heading response
  = Ret (response ++ category_lines E analysis (key, heading)).
Proof.
  intros Hlist. unfold category, category_lines, has_key, get_or.
  cbn [fst snd].
  destruct (analysis !! key) as [v|] eqn:Hv.
  - destruct (Hlist v eq_refl) as [items ->].
    rewrite bool_decide_eq_true_2 by eauto. done.
  - rewrite bool_decide_eq_false_2 by (by intros [? ?]).
    simpl. by rewrite app_nil_r.
Qed.

Lemma swot_block_of_lists d response :
  categories_are_lists d ->
  (if eq_str (get d "framework") "swot" then
     match get_or d "analysis" (VDict ∅) with
     | VDict analysis =>
         response ← category E analysis "strengths" "## Strengths" response;
         response ← category E analysis "weaknesses" "## Weaknesses" response;
         response ← category E analysis "opportunities" "## Opportunities" response;
         category E analysis "threats" "## Threats" response
     | _ => mret response
     end
   else mret response)
  = Ret (response ++ swot_lines E d).
Proof.
  intros Hcats. unfold swot_lines.
  destruct (eq_str (get d "framework") "swot") eqn:Hfw;
    [| by rewrite app_nil_r].
  destruct (get_or d "analysis" (VDict ∅)) as [| | | | | |analysis] eqn:Ha;
    try by rewrite app_nil_r.
  assert (Hlist : forall category, category ∈ swot_categories ->
    forall v, analysis !! category.1 = Some v -> exists items, v = VList items)
    by (intros category Hin v; by apply (Hcats analysis)).
  rewrite (category_of_list _ "strengths")
    by (apply (Hlist ("strengths", "## Strengths")); set_solver).
  cbn [mbind result_bind].
  rewrite (category_of_list _ "weaknesses")
    by (apply (Hlist ("weaknesses", "## Weaknesses")); set_solver).
  cbn [mbind result_bind].
  rewrite (category_of_list _ "opportunities")
    by (apply (Hlist ("opportunities", "## Opportunities")); set_solver).
  cbn [mbind result_bind].
  rewrite (category_of_list _ "threats")
    by (apply (Hlist ("threats", "## Threats")); set_solver).
  unfold swot_categories. cbn [fmap list_fmap concat].
  by rewrite app_nil_r, <- !app_assoc.
Qed.

Lemma length_bullets items : length (bullets E items) = length items.
Proof. unfold bullets. apply length_fmap. Qed.

Lemma length_numbered items : length (numbered E items) = length items.
Proof. unfold numbered. apply length_imap. Qed.

(** C7.  A result whose recommendations (and, for a SWOT result, whose
    categories) are lists is rendered as the header, the date, the SWOT
    categories and the recommendations, where each category shows the
    first five of its items and the recommendations are the first five:
    [min 5 n] of [n], so exactly five of more than five. *)
Theorem C7_lists_truncated_to_five (d task : gmap string value) recs :
  d <> ∅ ->
  categories_are_lists d ->
  get_or d "recommendations" (VList []) = VList recs ->
  _format_response E (VDict d) task
  = (header ← header_lines E d task;
     mret (join (String newline "")
             (header ++ [date_line E] ++ swot_lines E d
              ++ recommendation_lines E recs)))
  /\ (forall items, length (bullets E (take 5 items)) = min 5 (length items))
  /\ length (numbered E (take 5 recs)) = min 5 (length recs)
  /\ (5 < length recs -> length (numbered E (take 5 recs)) = 5).
Proof.
  intros Hd Hcats Hrecs. split_and!.
  - unfold _format_response. simpl truthy.
    rewrite bool_decide_eq_false_2 by done. simpl negb. cbv iota.
    unfold response_lines.
    destruct (header_lines E d task) as [header | e]; [| done].
    cbn [mbind result_bind].
    rewrite swot_block_of_lists by done.
    rewrite Hrecs. unfold recommendation_lines.
    destruct recs as [|rec recs']; simpl truthy; cbn [first_five mbind result_bind mret result_ret].
    + by rewrite app_nil_r, <- !app_assoc.
    + by rewrite <- !app_assoc.
  - intros items. by rewrite length_bullets, length_take.
  - by rewrite length_numbered, length_take.
  - intros Hlen. rewrite length_numbered, length_take. lia.
Qed.
End FormatFacts.

(* ===================================================================== *)
(** * The statements at sample inputs *)
(* ===================================================================== *)

(** A text with market-entry and competitive keywords is a market-entry
    task: the earlier rule decides. *)
Lemma C1_market_entry_before_competitive :
  let text := "Plan our market entry versus Acme" in
  any_in market_entry_keywords (lower text) = true
  /\ any_in competitive_keywords (lower text) = true
  /\ _parse_message_for_task (sample_messages text) = Ret (market_entry_task text).
Proof.
  split_and!; [vm_compute; reflexivity.. |].
  refine (proj1 (proj2 (proj2
    (C1_first_matching_rule_decides
       (sample_messages "Plan our market entry versus Acme")
       "Plan our market entry versus Acme"
       (take 2 rule_table)
       (Rule MarketEntryRule (any_in market_entry_keywords) market_entry_task)
       (drop 3 rule_table) _ _ _ _)))).
  - vm_compute; reflexivity.
  - reflexivity.
  - repeat constructor; vm_compute; reflexivity.
  - vm_compute; reflexivity.
Defined.

Lemma C2_three_posts_two_sleeps :
  let w := sample_world sample_env in
  let post := attempt_post "http://localhost:3001/api/analyze" sample_body w in
  _make_request sample_env "http://localhost:3001/api/analyze" sample_body w
  = (VNone, after w [post; EvSleep 1; post; EvSleep 2; post]).
Proof.
  apply (C2_three_attempts_on_503 sample_env).
  intros j Hj. reflexivity.
Defined.

(** A 503 and then a 500: the second POST is the last. *)
Lemma C3_gives_up_on_500 :
  let w := sample_world sample_env_500 in
  exists evs msg,
    _make_request sample_env_500 "http://localhost:3001/api/analyze" sample_body w
    = (VNone,
       after w (evs ++ [attempt_post "http://localhost:3001/api/analyze" sample_body w;
                        EvLog ERROR msg]))
    /\ length (posts evs) = 1.
Proof.
  apply (C3_other_status_or_connection_error_aborts sample_env_500 _ _ _ 1).
  - unfold max_retries. lia.
  - intros j Hj. assert (j = 0) as -> by lia. left. reflexivity.
  - right. exists 500%Z. split_and!; [reflexivity | lia | lia].
Defined.

Lemma C4_swot_for_tesla :
  exists t : gmap string value,
    _parse_message_for_task (sample_messages "Run a SWOT for Tesla") = Ret (Some t)
    /\ t !! "type" = Some (VStr "swot")
    /\ t !! "framework" = Some (VStr "swot")
    /\ t !! "company" = Some (VStr "Tesla").
Proof.
  apply (C4_swot_keyword_and_company_give_swot_task _ "Run a SWOT for Tesla");
    vm_compute; reflexivity.
Defined.

Lemma C5_no_keyword_no_task :
  _parse_message_for_task (sample_messages "What is the weather today?") = Ret None.
Proof.
  refine (proj2 (C5_no_task_iff _ "What is the weather today?" _) _);
    vm_compute; reflexivity.
Defined.

Lemma C7_seven_recommendations_five_rendered :
  _format_response sample_env (VDict sample_result) sample_task
  = (header ← header_lines sample_env sample_result sample_task;
     mret (join (String newline "")
             (header ++ [date_line sample_env] ++ swot_lines sample_env sample_result
              ++ recommendation_lines sample_env sample_recommendations)))
  /\ length (numbered sample_env (take 5 sample_recommendations)) = 5.
Proof.
  destruct (C7_lists_truncated_to_five sample_env sample_result sample_task
              sample_recommendations) as (Hfmt & _ & _ & Hfive).
  - intros H. apply (f_equal (fun m => m !! "framework")) in H.
    vm_compute in H. discriminate.
  - intros analysis category v _ Ha Hin Hv.
    vm_compute in Ha. injection Ha as <-.
    repeat (apply elem_of_cons in Hin as [-> | Hin];
            [vm_compute in Hv; first [discriminate | injection Hv as <-; by eexists] |]).
    by apply elem_of_nil in Hin.
  - reflexivity.
  - split; [exact Hfmt | apply Hfive; vm_compute; lia].
Defined.

Lemma C8_defaults_for_plain_text :
  let text := "What is the weather today?" in
  _extract_industry text = "technology"
  /\ _extract_region text = "Global"
  /\ _extract_depth text = "standard".
Proof.
  destruct (C8_default_fallbacks "What is the weather today?") as (Hi & Hr & Hd).
  split_and!.
  - apply Hi. intros pat Hin.
    repeat (apply elem_of_cons in Hin as [-> | Hin]; [vm_compute; reflexivity |]).
    by apply elem_of_nil in Hin.
  - apply Hr. intros region Hin.
    repeat (apply elem_of_cons in Hin as [-> | Hin]; [vm_compute; reflexivity |]).
    by apply elem_of_nil in Hin.
  - apply Hd. vm_compute; reflexivity.
Defined.

(** A text with a SWOT keyword, market-entry and competitive keywords, and
    no company name in it: no task. *)
Lemma C10_threats_without_company :
  let text := "threats to our market entry versus rivals" in
  any_in market_entry_keywords (lower text) = true
  /\ any_in competitive_keywords (lower text) = true
  /\ _parse_message_for_task (sample_messages text) = Ret None.
Proof.
  split_and!; [vm_compute; reflexivity.. |].
  apply (C10_failed_company_rule_suppresses_later_rules _
           "threats to our market entry versus rivals").
  - vm_compute; reflexivity.
  - left. vm_compute; reflexivity.
  - vm_compute; reflexivity.
Defined.

(** The sample result as the agent words it. *)
Example sample_rendering :
  _format_response sample_env (VDict sample_result) sample_task
  = Ret "# Strategic Analysis: Tesla
**Framework:** SWOT
**Date:** 2024-01-15

## Strengths
- s1
- s2
- s3
- s4
- s5

## Threats
- t1

## Strategic Recommendations
1. r1
2. r2
3. r3
4. r4
5. r5".
Proof. vm_compute. reflexivity. Qed.

(* ===================================================================== *)
(** * Further properties: the request loop *)
(* ===================================================================== *)

Lemma sleep_schedule_app evs1 evs2 :
  sleep_schedule (evs1 ++ evs2) = sleep_schedule evs1 ++ sleep_schedule evs2.
Proof.
  induction evs1 as [|e evs1 IH]; simpl; [done |].
  destruct e; by rewrite ?IH.
Qed.

Lemma posts_app evs1 evs2 : posts (evs1 ++ evs2) = posts evs1 ++ posts evs2.
Proof. apply filter_app. Qed.

Lemma logs_no_posts evs : Forall is_log evs -> posts evs = [].
Proof.
  unfold posts. induction 1 as [|e evs He _ IH]; [done |].
  destruct e; first [done | by rewrite filter_cons].
Qed.

Lemma logs_no_sleep evs : Forall is_log evs -> sleep_schedule evs = [].
Proof. induction 1 as [|e evs He _ IH]; [done |]. by destruct e. Qed.

Lemma logs_request_events endpoint data evs :
  Forall is_log evs -> Forall (request_event endpoint data) evs.
Proof. intros H. eapply Forall_impl; [done |]. by intros []. Qed.

Section LoopFacts.
Variable E : env.
Implicit Types (w : world) (data : gmap string value).

Ltac run_step :=
  cbn [attempts];
  unfold mbind, M_bind, get_self, session_post, sleep, log, emit, mret, M_ret;
  cbn beta iota.

(** One turn of the loop either ends the call, after the POST and perhaps a
    log entry, or goes on to the attempts left, after the POST and a sleep,
    a log entry or nothing. *)
Lemma attempts_turn endpoint data attempt todo w :
  let o := http E (requests_made (trace w)) in
  match ends_with o with
  | Some r =>
      attempts E endpoint data (attempt :: todo) w
      = (r, after w (attempt_post endpoint data w :: error_log endpoint o))
  | None =>
      if Nat.ltb attempt (max_retries - 1) then
        exists evs1,
          attempts E endpoint data (attempt :: todo) w
          = attempts E endpoint data todo
              (after w (attempt_post endpoint data w :: evs1))
          /\ (evs1 = [EvSleep (retry_delay * (Z.of_nat attempt + 1))]
              /\ status_of o = Some 503%Z
              \/ Forall is_log evs1 /\ o = Timeout)
      else
        (status_of o = Some 503%Z
         /\ attempts E endpoint data (attempt :: todo) w
            = attempts E endpoint data todo
                (after w [attempt_post endpoint data w]))
        \/ (o = Timeout
            /\ exists logs,
                 attempts E endpoint data (attempt :: todo) w
                 = (VNone, after w (attempt_post endpoint data w :: logs))
                 /\ Forall is_log logs)
  end.
Proof.
  cbv zeta. unfold ends_with, error_log.
  destruct (http E (requests_made (trace w))) as [c text json| | |err] eqn:Ho.
  - destruct (Z.eqb_spec c 200) as [-> | H200].
    { run_step. rewrite Ho. cbn. unfold after, attempt_post, json_headers.
      destruct json as [v | err]; cbn; by rewrite <- ?app_assoc. }
    destruct (Z.eqb_spec c 503) as [-> | H503].
    + pose proof (attempts_503 E endpoint data attempt todo w) as Hstep.
      rewrite Ho in Hstep. specialize (Hstep eq_refl).
      destruct (Nat.ltb attempt (max_retries - 1)); [| by left].
      eexists. split; [done |]. by left.
    + run_step. rewrite Ho. cbn.
      rewrite (proj2 (Z.eqb_neq _ _) H200), (proj2 (Z.eqb_neq _ _) H503).
      unfold after, attempt_post, json_headers. cbn. by rewrite <- app_assoc.
  - destruct (Nat.ltb attempt (max_retries - 1)) eqn:Hlt.
    + rewrite attempts_timeout by done.
      eexists [_]. split; [done |]. right. split; [| done]. by repeat constructor.
    + right. split; [done |]. run_step. rewrite Ho, Hlt. cbn.
      unfold after, attempt_post, json_headers. cbn. rewrite <- app_assoc.
      eexists [_]. split; [done |]. by repeat constructor.
  - run_step. rewrite Ho. cbn.
    unfold after, attempt_post, json_headers. cbn. by rewrite <- app_assoc.
  - run_step. rewrite Ho. cbn.
    unfold after, attempt_post, json_headers. cbn. by rewrite <- app_assoc.
Qed.

Lemma error_log_logs endpoint o : Forall is_log (error_log endpoint o).
Proof.
  destruct o as [c text [v|err]| | |]; simpl; try destruct (Z.eqb c 200);
    by repeat constructor.
Qed.

Lemma posts_turn endpoint data w evs1 evs :
  posts evs1 = [] ->
  posts (attempt_post endpoint data w :: evs1 ++ evs)
  = attempt_post endpoint data w :: posts evs.
Proof.
  intros H1. unfold posts in *. rewrite filter_cons. simpl.
  rewrite filter_app, H1. done.
Qed.

(** The effort of a run of the loop: one POST of the same request per turn
    taken, and sleeps only as scheduled for the attempts. *)
Lemma attempts_effort endpoint data todo : forall w,
  exists r evs,
    attempts E endpoint data todo w = (r, after w evs)
    /\ posts evs = replicate (length (posts evs)) (attempt_post endpoint data w)
    /\ length (posts evs) <= length todo
    /\ (todo <> [] -> 1 <= length (posts evs))
    /\ sleep_schedule evs `sublist_of` omap backoff todo.
Proof.
  induction todo as [|attempt todo IH]; intros w.
  { exists VNone, []. rewrite after_nil. by split_and!. }
  assert (Hcontinue : forall evs1,
    posts evs1 = [] ->
    sleep_schedule evs1 `sublist_of` option_list (backoff attempt) ->
    exists r evs,
      attempts E endpoint data todo (after w (attempt_post endpoint data w :: evs1))
      = (r, after w evs)
      /\ posts evs = replicate (length (posts evs)) (attempt_post endpoint data w)
      /\ length (posts evs) <= length (attempt :: todo)
      /\ (attempt :: todo <> [] -> 1 <= length (posts evs))
      /\ sleep_schedule evs `sublist_of` omap backoff (attempt :: todo)).
  { intros evs1 Hposts1 Hsleep1.
    destruct (IH (after w (attempt_post endpoint data w :: evs1)))
      as (r & evs & -> & Hposts & Hlen & _ & Hsleep).
    exists r, (attempt_post endpoint data w :: evs1 ++ evs).
    rewrite after_after, posts_turn by done. simpl length.
    split_and!; [done | | lia | lia |].
    - simpl. f_equal. exact Hposts.
    - change (sleep_schedule (attempt_post endpoint data w :: evs1 ++ evs))
        with (sleep_schedule (evs1 ++ evs)).
      rewrite sleep_schedule_app. cbn [omap list_omap].
      destruct (backoff attempt) as [z|]; simpl in *.
      + change (z :: omap backoff todo) with ([z] ++ omap backoff todo).
        by apply sublist_app.
      + apply sublist_nil_r in Hsleep1 as ->. done. }
  assert (Hstop : forall (r : value) logs,
    Forall is_log logs ->
    exists r' evs,
      (r, after w (attempt_post endpoint data w :: logs)) = (r', after w evs)
      /\ posts evs = replicate (length (posts evs)) (attempt_post endpoint data w)
      /\ length (posts evs) <= length (attempt :: todo)
      /\ (attempt :: todo <> [] -> 1 <= length (posts evs))
      /\ sleep_schedule evs `sublist_of` omap backoff (attempt :: todo)).
  { intros r logs Hlogs. exists r, (attempt_post endpoint data w :: logs).
    rewrite <- (app_nil_r logs), posts_turn by by apply logs_no_posts.
    rewrite app_nil_r. simpl.
    split_and!; [done | done | lia | lia |].
    rewrite (logs_no_sleep _ Hlogs). apply sublist_nil_l. }
  pose proof (attempts_turn endpoint data attempt todo w) as Hturn.
  cbv zeta in Hturn.
  destruct (ends_with (http E (requests_made (trace w)))) as [r|].
  { rewrite Hturn. apply Hstop, error_log_logs. }
  unfold backoff in Hcontinue.
  destruct (Nat.ltb attempt (max_retries - 1)).
  - destruct Hturn as (evs1 & -> & [[-> _] | [Hlogs _]]).
    + by apply Hcontinue.
    + apply Hcontinue; [by apply logs_no_posts |].
      rewrite (logs_no_sleep _ Hlogs). apply sublist_nil_l.
  - destruct Hturn as [[_ ->] | [_ (logs & -> & Hlogs)]].
    + by apply (Hcontinue []).
    + by apply Hstop.
Qed.

(** X1.  Whatever the service does, one call of [_make_request] makes at
    least one and at most three POSTs, each the same request, and sleeps at
    most 1 second and then 2 seconds. *)
Theorem X1_make_request_effort_is_bounded endpoint data w :
  exists r evs,
    _make_request E endpoint data w = (r, after w evs)
    /\ posts evs = replicate (length (posts evs)) (attempt_post endpoint data w)
    /\ 1 <= length (posts evs) <= max_retries
    /\ sleep_schedule evs `sublist_of` [1; 2]%Z.
Proof.
  destruct (attempts_effort endpoint data (seq 0 max_retries) w)
    as (r & evs & Hrun & Hposts & Hmax & Hmin & Hsleep).
  exists r, evs. split_and!; [done | done | by apply Hmin | done | done].
Qed.

(** After [k] retried outcomes an outcome that ends the call does so, with
    the value it ends with. *)
Lemma attempts_retried_then_ends endpoint data r k : forall a w,
  a + k < max_retries ->
  (forall j, j < k -> retried (http E (requests_made (trace w) + j))) ->
  ends_with (http E (requests_made (trace w) + k)) = Some r ->
  exists evs,
    attempts E endpoint data (seq a (max_retries - a)) w
    = (r, after w (evs ++ attempt_post endpoint data w
                   :: error_log endpoint (http E (requests_made (trace w) + k))))
    /\ length (posts evs) = k.
Proof.
  induction k as [|k IH]; intros a w Ha Hretried Hends.
  - rewrite Nat.add_0_r in Hends.
    replace (max_retries - a) with (S (max_retries - S a)) by lia. cbn [seq].
    pose proof (attempts_turn endpoint data a (seq (S a) (max_retries - S a)) w)
      as Hturn.
    cbv zeta in Hturn. rewrite Hends in Hturn. rewrite Hturn.
    exists []. by rewrite Nat.add_0_r.
  - replace (max_retries - a) with (S (max_retries - S a)) by lia. cbn [seq].
    assert (Hlt : Nat.ltb a (max_retries - 1) = true)
      by (apply Nat.ltb_lt; lia).
    assert (exists evs1,
      attempts E endpoint data (a :: seq (S a) (max_retries - S a)) w
      = attempts E endpoint data (seq (S a) (max_retries - S a)) (after w evs1)
      /\ requests_made evs1 = 1 /\ length (posts evs1) = 1)
      as (evs1 & -> & Hreq & Hposts).
    { pose proof (Hretried 0 ltac:(lia)) as H0. rewrite Nat.add_0_r in H0.
      destruct H0 as [H0 | H0].
      - rewrite attempts_503, Hlt by done. by eexists.
      - rewrite attempts_timeout by done. by eexists. }
    destruct (IH (S a) (after w evs1)) as (evs & -> & Hlen).
    + lia.
    + intros j Hj. rewrite requests_made_after, Hreq.
      replace (requests_made (trace w) + 1 + j)
        with (requests_made (trace w) + S j) by lia.
      apply Hretried. lia.
    + rewrite requests_made_after, Hreq.
      by replace (requests_made (trace w) + 1 + k)
        with (requests_made (trace w) + S k) by lia.
    + exists (evs1 ++ evs). rewrite after_after, app_assoc.
      rewrite requests_made_after, Hreq.
      replace (requests_made (trace w) + 1 + k)
        with (requests_made (trace w) + S k) by lia.
      split; [done |]. rewrite posts_app, length_app. lia.
Qed.

(** X2.  A 200 whose body decodes ends the call with the decoded body: after
    [k] retried attempts the POST that gets it is the last event, and no
    error is logged for it. *)
Theorem X2_make_request_returns_decoded_body endpoint data w k text v :
  k < max_retries ->
  (forall j, j < k -> retried (http E (requests_made (trace w) + j))) ->
  http E (requests_made (trace w) + k) = Response 200 text (Json v) ->
  exists evs,
    _make_request E endpoint data w
    = (v, after w (evs ++ [attempt_post endpoint data w]))
    /\ length (posts evs) = k.
Proof.
  intros Hk Hretried Hok. unfold _make_request.
  destruct (attempts_retried_then_ends endpoint data v k 0 w)
    as (evs & Hrun & Hlen); [lia | done | by rewrite Hok |].
  change (max_retries - 0) with max_retries in Hrun.
  exists evs. by rewrite Hrun, Hok.
Qed.

(** Attempts [a], ..., the last one, each retried: the loop runs out. *)
Lemma attempts_all_retried endpoint data k : forall a w,
  a + k = max_retries ->
  (forall j, j < k -> retried (http E (requests_made (trace w) + j))) ->
  exists evs,
    attempts E endpoint data (seq a k) w = (VNone, after w evs)
    /\ length (posts evs) = k
    /\ ((forall j, j < k -> http E (requests_made (trace w) + j) = Timeout) ->
        sleep_schedule evs = []).
Proof.
  induction k as [|k IH]; intros a w Ha Hretried.
  { exists []. by rewrite after_nil. }
  cbn [seq].
  pose proof (Hretried 0 ltac:(lia)) as H0. rewrite Nat.add_0_r in H0.
  pose proof (attempts_turn endpoint data a (seq (S a) k) w) as Hturn.
  cbv zeta in Hturn.
  assert (Hgo : ends_with (http E (requests_made (trace w))) = None).
  { destruct H0 as [H0 | ->]; [| done].
    destruct (http E (requests_made (trace w))); simplify_eq/=. done. }
  rewrite Hgo in Hturn.
  assert (Hnext : forall evs1,
    requests_made evs1 = 0 -> posts evs1 = [] ->
    (http E (requests_made (trace w)) = Timeout -> sleep_schedule evs1 = []) ->
    exists evs,
      attempts E endpoint data (seq (S a) k)
        (after w (attempt_post endpoint data w :: evs1))
      = (VNone, after w evs)
      /\ length (posts evs) = S k
      /\ ((forall j, j < S k -> http E (requests_made (trace w) + j) = Timeout) ->
          sleep_schedule evs = [])).
  { intros evs1 Hreq1 Hposts1 Hsleep1.
    destruct (IH (S a) (after w (attempt_post endpoint data w :: evs1)))
      as (evs & -> & Hlen & Hsleep); [lia | |].
    { intros j Hj. rewrite requests_made_after.
      change (requests_made (attempt_post endpoint data w :: evs1))
        with (S (requests_made evs1)).
      rewrite Hreq1.
      replace (requests_made (trace w) + 1 + j)
        with (requests_made (trace w) + S j) by lia.
      apply Hretried. lia. }
    exists (attempt_post endpoint data w :: evs1 ++ evs).
    rewrite after_after, posts_turn by done.
    split_and!; [done | simpl; lia |].
    intros Hall.
    change (sleep_schedule (attempt_post endpoint data w :: evs1 ++ evs))
      with (sleep_schedule (evs1 ++ evs)).
    rewrite sleep_schedule_app, Hsleep1, Hsleep; [done | |].
    - intros j Hj. rewrite requests_made_after.
      change (requests_made (attempt_post endpoint data w :: evs1))
        with (S (requests_made evs1)).
      rewrite Hreq1.
      replace (requests_made (trace w) + 1 + j)
        with (requests_made (trace w) + S j) by lia.
      apply Hall. lia.
    - rewrite <- (Nat.add_0_r (requests_made _)). apply Hall. lia. }
  destruct (Nat.ltb a (max_retries - 1)) eqn:Hlt.
  - destruct Hturn as (evs1 & -> & [[-> H503] | [Hlogs _]]).
    + apply Hnext; [done | done |]. intros Ht. by rewrite Ht in H503.
    + apply Hnext; [| by apply logs_no_posts | by rewrite logs_no_sleep].
      clear -Hlogs. unfold requests_made.
      induction Hlogs as [|e evs He _ IH]; [done |].
      destruct e; first [done | by rewrite filter_cons].
  - destruct Hturn as [[_ ->] | [_ (logs & -> & Hlogs)]].
    + by apply (Hnext []).
    + assert (k = 0) as -> by (apply Nat.ltb_ge in Hlt; lia).
      exists (attempt_post endpoint data w :: logs).
      rewrite <- (app_nil_r logs), posts_turn by by apply logs_no_posts.
      rewrite app_nil_r. split_and!; [done | done |].
      intros _. simpl. by apply logs_no_sleep.
Qed.

(** X3.  When each of the three attempts gets a 503 or times out, in any
    mix, the call makes exactly three POSTs and returns [None]; when all
    three time out it does so without sleeping. *)
Theorem X3_three_posts_when_every_attempt_is_retried endpoint data w :
  (forall j, j < max_retries ->
     retried (http E (requests_made (trace w) + j))) ->
  exists evs,
    _make_request E endpoint data w = (VNone, after w evs)
    /\ length (posts evs) = max_retries
    /\ ((forall j, j < max_retries ->
           http E (requests_made (trace w) + j) = Timeout) ->
        sleep_schedule evs = []).
Proof.
  intros Hretried. unfold _make_request.
  by apply attempts_all_retried.
Qed.

(** X4.  A 200 whose body does not decode, or an exception other than a
    timeout or a connection error, ends the call at once with [None]: the
    POST that meets it is the last, and the error text is logged. *)
Theorem X4_undecodable_body_or_unexpected_error_aborts endpoint data w k err :
  k < max_retries ->
  (forall j, j < k -> retried (http E (requests_made (trace w) + j))) ->
  (exists text,
     http E (requests_made (trace w) + k) = Response 200 text (NotJson err))
  \/ http E (requests_made (trace w) + k) = OtherError err ->
  exists evs,
    _make_request E endpoint data w
    = (VNone,
       after w (evs ++ [attempt_post endpoint data w;
                        EvLog ERROR ("Unexpected error in request: " +:+ err)]))
    /\ length (posts evs) = k.
Proof.
  intros Hk Hretried Hbad. unfold _make_request.
  destruct (attempts_retried_then_ends endpoint data VNone k 0 w)
    as (evs & Hrun & Hlen); [lia | done | |].
  { by destruct Hbad as [[text ->] | ->]. }
  change (max_retries - 0) with max_retries in Hrun.
  exists evs. rewrite Hrun. by destruct Hbad as [[text ->] | ->].
Qed.
End LoopFacts.

(* ===================================================================== *)
(** * Further properties: what the extractors return *)
(* ===================================================================== *)

Lemma append_cons c (a b : string) : String c a +:+ b = String c (a +:+ b).
Proof. reflexivity. Qed.

Lemma append_nil_l (a : string) : "" +:+ a = a.
Proof. reflexivity. Qed.

Lemma append_assoc (a b c : string) : (a +:+ b) +:+ c = a +:+ b +:+ c.
Proof.
  induction a as [|x a IH]; [done |]. by rewrite !append_cons, IH.
Qed.

Lemma append_nil_r (a : string) : a +:+ "" = a.
Proof. induction a as [|x a IH]; [done |]. by rewrite append_cons, IH. Qed.

Lemma length_append (a b : string) :
  String.length (a +:+ b) = String.length a + String.length b.
Proof.
  induction a as [|x a IH]; [done |]. rewrite append_cons. simpl. by rewrite IH.
Qed.

Lemma str_take_append (p s : string) :
  str_take (String.length (p +:+ s) - String.length s) (p +:+ s) = p.
Proof.
  rewrite length_append, Nat.add_sub.
  induction p as [|x p IH].
  - rewrite append_nil_l. by destruct s.
  - rewrite append_cons. simpl String.length. rewrite str_take_cons. by rewrite IH.
Qed.

Lemma all_chars_append p (a b : string) :
  all_chars p (a +:+ b) = all_chars p a && all_chars p b.
Proof.
  induction a as [|x a IH]; [done |].
  rewrite append_cons. simpl. by rewrite IH, andb_assoc.
Qed.

Lemma all_chars_impl (p q : ascii -> bool) s :
  (forall c, p c = true -> q c = true) ->
  all_chars p s = true -> all_chars q s = true.
Proof.
  intros Hpq. induction s as [|c s IH]; simpl; [done |].
  rewrite !andb_true_iff. intros [Hc Hs]. auto.
Qed.

Lemma occurs_in_refl s : occurs_in s s.
Proof. exists "", "". by rewrite append_nil_l, append_nil_r. Qed.

Lemma occurs_in_trans a b c : occurs_in a b -> occurs_in b c -> occurs_in a c.
Proof.
  intros (b1 & b2 & ->) (c1 & c2 & ->).
  exists (c1 +:+ b1), (b2 +:+ c2). by rewrite !append_assoc.
Qed.

Lemma occurs_in_middle a b c : occurs_in b (a +:+ b +:+ c).
Proof. by exists a, c. Qed.

Lemma occurs_in_all_chars p a b :
  occurs_in a b -> all_chars p b = true -> all_chars p a = true.
Proof.
  intros (b1 & b2 & ->). rewrite !all_chars_append, !andb_true_iff. tauto.
Qed.

(** ** [strip] *)

Lemma lstrip_split s :
  exists blanks, s = blanks +:+ lstrip s /\ all_chars is_space blanks = true.
Proof.
  induction s as [|c s (blanks & Hs & Hb)]; simpl.
  - by exists "".
  - destruct (is_space c) eqn:Hc.
    + exists (String c blanks). simpl. rewrite Hc, Hb, append_cons.
      by rewrite <- Hs.
    + by exists "".
Qed.

Lemma rstrip_split s :
  exists blanks, s = rstrip s +:+ blanks /\ all_chars is_space blanks = true.
Proof.
  induction s as [|c s (blanks & Hs & Hb)]; simpl.
  - by exists "".
  - destruct (rstrip s) as [|c' t] eqn:Ht.
    + rewrite append_nil_l in Hs. destruct (is_space c) eqn:Hc.
      * exists (String c blanks). simpl. by rewrite Hc, Hb, append_nil_l, Hs.
      * exists blanks. by rewrite append_cons, append_nil_l, Hs.
    + exists blanks. by rewrite append_cons, <- Hs.
Qed.

Lemma strip_occurs s : occurs_in (strip s) s.
Proof.
  destruct (lstrip_split s) as (l & Hl & _).
  destruct (rstrip_split (lstrip s)) as (r & Hr & _).
  exists l, r. unfold strip. by rewrite <- Hr.
Qed.

Lemma rstrip_rstrip s : rstrip (rstrip s) = rstrip s.
Proof.
  induction s as [|c s IH]; simpl; [done |].
  destruct (rstrip s) as [|c' t] eqn:Ht.
  - destruct (is_space c) eqn:Hc; simpl; [done |]. by rewrite Hc.
  - change (rstrip (String c (String c' t))) with
      (match rstrip (String c' t) with
       | "" => if is_space c then "" else String c ""
       | t' => String c t'
       end).
    by rewrite IH.
Qed.

Lemma lstrip_head s :
  match lstrip s with
  | EmptyString => True
  | String c _ => is_space c = false
  end.
Proof.
  induction s as [|c s IH]; simpl; [done |].
  destruct (is_space c) eqn:Hc; [done |]. simpl. done.
Qed.

Lemma rstrip_head c s :
  is_space c = false -> exists t, rstrip (String c s) = String c t.
Proof. intros Hc. simpl. rewrite Hc. destruct (rstrip s); eauto. Qed.

Lemma strip_strip s : strip (strip s) = strip s.
Proof.
  unfold strip.
  pose proof (lstrip_head s) as Hhead.
  destruct (lstrip s) as [|c t] eqn:Hl; [done |].
  destruct (rstrip_head c t Hhead) as [t' Ht'].
  rewrite Ht'. simpl lstrip. rewrite Hhead, <- Ht'. apply rstrip_rstrip.
Qed.

(** ** What a match consumes *)

Section ConsumeFacts.
Context {A : Type}.
Variables (ic : bool) (n : nat).
Implicit Types (s : string) (k : string -> option A) (x : A).

Lemma consumes_here (P : string -> Prop) s k x :
  P "" -> k s = Some x -> consumes P s k x.
Proof. intros HP Hk. by exists "", s. Qed.

Lemma consumes_cons (P Q : string -> Prop) c s k x :
  (forall p, P p -> Q (String c p)) ->
  consumes P s k x -> consumes Q (String c s) k x.
Proof.
  intros HPQ (p & s' & -> & HP & Hk). exists (String c p), s'. auto.
Qed.

Lemma consumes_compose (P Q R : string -> Prop) s k1 k2 x :
  (forall p q, P p -> Q q -> R (p +:+ q)) ->
  consumes P s k1 x ->
  (forall s', k1 s' = Some x -> consumes Q s' k2 x) ->
  consumes R s k2 x.
Proof.
  intros HR (p & s1 & -> & HP & Hk1) Hstep.
  destruct (Hstep s1 Hk1) as (q & s2 & -> & HQ & Hk2).
  exists (p +:+ q), s2. rewrite append_assoc. auto.
Qed.

Lemma consumes_weaken (P Q : string -> Prop) s k x :
  (forall p, P p -> Q p) -> consumes P s k x -> consumes Q s k x.
Proof. intros HPQ (p & s' & -> & HP & Hk). exists p, s'. auto. Qed.

Definition anything (p : string) : Prop := True.

Lemma lit_consumes l s k x :
  Re.lit ic l s k = Some x -> consumes anything s k x.
Proof.
  revert s. induction l as [|c l IH]; intros s; simpl.
  - by apply consumes_here.
  - destruct s as [|a s]; [done |].
    destruct (Re.chr_match ic c a); [| done].
    intros H%IH. by eapply consumes_cons.
Qed.

Lemma star_consumes p s k x :
  Re.star ic p s k = Some x ->
  consumes (fun q => all_chars (Re.cls_match ic p) q = true) s k x.
Proof.
  induction s as [|a s IH]; simpl.
  - by apply consumes_here.
  - destruct (Re.cls_match ic p a) eqn:Ha; [| by apply consumes_here].
    destruct (Re.star ic p s k) as [y|] eqn:Hs.
    + intros [= ->]. eapply consumes_cons; [| by apply IH].
      intros q Hq. simpl. by rewrite Ha.
    + by apply consumes_here.
Qed.

Lemma star_lazy_consumes p s k x :
  Re.star_lazy ic p s k = Some x ->
  consumes (fun q => all_chars (Re.cls_match ic p) q = true) s k x.
Proof.
  induction s as [|a s IH]; simpl.
  - destruct (k "") eqn:Hk; [| done]. intros [= ->]. by apply consumes_here.
  - destruct (k (String a s)) eqn:Hk.
    + intros [= ->]. by apply consumes_here.
    + destruct (Re.cls_match ic p a) eqn:Ha; [| done].
      intros H. eapply consumes_cons; [| by apply IH].
      intros q Hq. simpl. by rewrite Ha.
Qed.

Lemma exec_consumes r s k x :
  Re.exec ic n r s k = Some x -> consumes anything s k x.
Proof.
  revert s k. induction r as [l|p|r1 IH1 r2 IH2|r1 IH1 r2 IH2|r IH|p|p|p| |];
    intros s k; simpl.
  - apply lit_consumes.
  - intros (a & s' & -> & _ & Hk)%one_inv. by exists (String a ""), s'.
  - intros H%IH1. eapply consumes_compose; [| done |]; [done |].
    intros s'. apply IH2.
  - destruct (Re.exec ic n r1 s k) eqn:H1.
    + intros [= ->]. by apply IH1.
    + apply IH2.
  - destruct (Re.exec ic n r s k) eqn:H1.
    + intros [= ->]. by apply IH.
    + by apply consumes_here.
  - intros H%star_consumes. by eapply consumes_weaken.
  - intros (a & s' & -> & _ & Hk%star_consumes)%one_inv.
    eapply consumes_cons; [| by eapply consumes_weaken]. done.
  - intros (a & s' & -> & _ & Hk%star_lazy_consumes)%one_inv.
    eapply consumes_cons; [| by eapply consumes_weaken]. done.
  - destruct (Nat.eqb _ _); [by apply consumes_here | done].
  - destruct (Re.at_eol s); [by apply consumes_here | done].
Qed.

Lemma scan_suffix (m : string -> option A) s x :
  Re.scan m s = Some x -> exists p s', s = p +:+ s' /\ m s' = Some x.
Proof.
  induction s as [|a s IH]; simpl.
  - destruct (m "") eqn:Hm; [| done]. intros [= ->]. by exists "", "".
  - destruct (m (String a s)) eqn:Hm.
    + intros [= ->]. by exists "", (String a s).
    + intros (p & s' & -> & H)%IH. by exists (String a p), s'.
Qed.
End ConsumeFacts.

Lemma plus_group_of_class p : group_of_class p (Re.Plus p).
Proof.
  intros ic n s k m. simpl.
  intros (a & s' & -> & Ha & H%star_consumes)%one_inv.
  eapply consumes_cons; [| done].
  intros q Hq. simpl. by rewrite Ha.
Qed.

Lemma plus_lazy_group_of_class p : group_of_class p (Re.PlusLazy p).
Proof.
  intros ic n s k m. simpl.
  intros (a & s' & -> & Ha & H%star_lazy_consumes)%one_inv.
  eapply consumes_cons; [| done].
  intros q Hq. simpl. by rewrite Ha.
Qed.

Lemma upper_in_name_class ic a :
  Re.cls_match ic is_upper a = true -> Re.cls_match ic name_char a = true.
Proof.
  destruct a as [[] [] [] [] [] [] [] []], ic; vm_compute; congruence.
Qed.

Lemma name_group_of_class : group_of_class name_char name_group.
Proof.
  intros ic n s k m. unfold name_group. simpl.
  intros (a & s' & -> & Ha & H)%one_inv.
  apply one_inv in H as (b & s'' & -> & Hb & H%star_lazy_consumes).
  apply (consumes_cons
           (fun q => q <> "" /\ all_chars (Re.cls_match ic name_char) q = true)).
  { intros q [_ Hq]. split; [done |]. simpl.
    by rewrite (upper_in_name_class _ _ Ha). }
  apply (consumes_cons
           (fun q => all_chars (Re.cls_match ic name_char) q = true)); [| done].
  intros q Hq. split; [done |]. simpl. by rewrite Hb.
Qed.

(** The group of a match occurs in the text matched, is not empty and is
    made of characters of the group's class. *)
Lemma match_here_group_text q ic n pat s m :
  group_of_class q (Re.grp pat) ->
  Re.match_here ic n pat s = Some m ->
  occurs_in (Re.group1 m) s
  /\ Re.group1 m <> ""
  /\ all_chars (Re.cls_match ic q) (Re.group1 m) = true.
Proof.
  intros Hgrp. unfold Re.match_here.
  intros (p0 & s1 & -> & _ & H)%exec_consumes.
  apply Hgrp in H as (g & s2 & -> & [Hne Hq] & H).
  apply exec_consumes in H as (p2 & s3 & -> & _ & [= <-]).
  simpl Re.group1. rewrite str_take_append.
  split; [apply occurs_in_middle | done].
Qed.

Lemma search_group_text q ic pat text m :
  group_of_class q (Re.grp pat) ->
  Re.search ic pat text = Some m ->
  occurs_in (Re.group1 m) text
  /\ Re.group1 m <> ""
  /\ all_chars (Re.cls_match ic q) (Re.group1 m) = true.
Proof.
  intros Hgrp (p & s & -> & H)%scan_suffix.
  eapply match_here_group_text in H as (Hocc & Hne & Hq); [| done].
  split; [| done].
  eapply occurs_in_trans; [done |]. exists p, "". by rewrite append_nil_r.
Qed.

(** ** The company name *)

Lemma findall_head pat text q rest_ :
  Re.findall pat text = q :: rest_ ->
  exists m, Re.search false pat text = Some m /\ q = Re.group1 m.
Proof.
  unfold Re.findall, Re.search. simpl Re.findall_from.
  destruct (Re.scan _ text) as [m|]; [| done]. intros [= <- _]. eauto.
Qed.

(** X5.  A company name that is extracted stands in the text as it is and
    is never empty; when one of the four patterns found it, it has no blank
    at either end. *)
Theorem X5_company_name_comes_from_the_text text company :
  _extract_company_name text = Some company ->
  occurs_in company text
  /\ company <> ""
  /\ (is_Some (first_search company_patterns text) -> strip company = company).
Proof.
  intros Hco. split_and!; [| by eapply extracted_company_nonempty |].
  - unfold _extract_company_name in Hco.
    destruct (first_search company_patterns text) as [m|] eqn:Hfirst.
    + injection Hco as <-.
      apply first_search_inv in Hfirst as (pat & Hin & Hs).
      apply (search_group_text name_char) in Hs as (Hocc & _);
        [| rewrite (company_patterns_group _ Hin); apply name_group_of_class].
      eapply occurs_in_trans; [apply strip_occurs | done].
    + destruct (Re.findall quoted_pattern text) as [|q rest_] eqn:Hall; [done |].
      injection Hco as <-.
      apply findall_head in Hall as (m & Hs & ->).
      apply (search_group_text not_dquote) in Hs as (Hocc & _); [done |].
      apply plus_group_of_class.
  - intros [m Hm]. unfold _extract_company_name in Hco. rewrite Hm in Hco.
    injection Hco as <-. apply strip_strip.
Qed.

(** ** The industry and the region *)

Lemma not_comma_nl_class ic a :
  Re.cls_match ic not_comma_nl a = true -> not_comma_nl a = true.
Proof.
  destruct a as [[] [] [] [] [] [] [] []], ic; vm_compute; congruence.
Qed.

Lemma industry_patterns_group pat :
  pat ∈ industry_patterns -> group_of_class not_comma_nl (Re.grp pat).
Proof.
  unfold industry_patterns. rewrite !elem_of_cons, elem_of_nil.
  intros [->|[->|[->|[]]]]; simpl;
    first [apply plus_group_of_class | apply plus_lazy_group_of_class].
Qed.

(** X6.  The industry is the default "technology", or it stands in the text
    as it is, without a blank at either end and without a comma or a
    newline in it.  It can be the empty string: the default is not used
    when a pattern matches blanks only. *)
Theorem X6_industry_is_default_or_from_the_text text :
  (_extract_industry text = "technology"
   \/ occurs_in (_extract_industry text) text
      /\ strip (_extract_industry text) = _extract_industry text
      /\ all_chars not_comma_nl (_extract_industry text) = true)
  /\ _extract_industry "sector: " = "".
Proof.
  split; [| vm_compute; reflexivity].
  unfold _extract_industry.
  destruct (first_search industry_patterns text) as [m|] eqn:Hfirst; [| by left].
  right.
  apply first_search_inv in Hfirst as (pat & Hin & Hs).
  apply (search_group_text not_comma_nl) in Hs as (Hocc & _ & Hchars);
    [| by apply industry_patterns_group].
  split_and!.
  - eapply occurs_in_trans; [apply strip_occurs | done].
  - apply strip_strip.
  - eapply occurs_in_all_chars; [apply strip_occurs |].
    eapply all_chars_impl; [| done]. apply not_comma_nl_class.
Qed.

(** X7.  The region is always the title-cased name of one of the seven
    regions, and that of the first of them (in the order Europe, Asia, North
    America, South America, Africa, Middle East, Global) that occurs in the
    text in any case; "Global" when none occurs. *)
Theorem X7_region_is_one_of_seven text :
  _extract_region text
    ∈ ["Europe"; "Asia"; "North America"; "South America"; "Africa";
       "Middle East"; "Global"]
  /\ forall before region later,
       regions = before ++ region :: later ->
       Forall (fun r => contains r (lower text) = false) before ->
       contains region (lower text) = true ->
       _extract_region text = title region.
Proof.
  split.
  - unfold _extract_region. cbv zeta.
    destruct (find _ regions) as [region|] eqn:Hfind; [| set_solver].
    apply find_some in Hfind as [Hin _].
    unfold regions in Hin. simpl in Hin.
    repeat (destruct Hin as [<- | Hin]; [vm_compute; set_solver |]). done.
  - intros before region later Heq Hbefore Hregion.
    unfold _extract_region. cbv zeta. rewrite Heq. clear Heq.
    induction Hbefore as [|r before Hr _ IH]; simpl.
    + by rewrite Hregion.
    + by rewrite Hr.
Qed.

(** ** The competitors *)

Lemma not_period_class ic a :
  Re.cls_match ic not_period a = true -> not_period a = true.
Proof.
  destruct a as [[] [] [] [] [] [] [] []], ic; vm_compute; congruence.
Qed.

Lemma competitor_patterns_group pat :
  pat ∈ competitor_patterns -> group_of_class not_period (Re.grp pat).
Proof.
  unfold competitor_patterns. rewrite !elem_of_cons, elem_of_nil.
  intros [->|[->|[->|[]]]]; simpl; apply plus_group_of_class.
Qed.

(** The delimiter, to match, takes one character at least. *)
Lemma delimiter_takes_a_character n s (k : string -> option string) x :
  Re.exec false n competitor_delimiter s k = Some x ->
  exists a s', s = String a s' /\ continues s' k x.
Proof.
  unfold competitor_delimiter. cbn [alts cats foldr Re.exec].
  destruct (Re.one false _ s k) eqn:H1.
  - intros [= ->]. apply one_inv in H1 as (a & s' & -> & _ & Hk).
    exists a, s'. split; [done |]. by apply continues_here.
  - intros (a & s' & -> & _ & H)%one_inv. exists a, s'. split; [done |].
    apply lit_continues in H.
    eapply continues_compose; [done |].
    intros s1 (b & s2 & -> & _ & H2)%one_inv.
    apply lit_continues in H2.
    eapply continues_shorter; [done | simpl; lia].
Qed.

(** Where the delimiter does not match, no comma or semicolon stands. *)
Lemma delimiter_fails_at n c s :
  Re.exec false n competitor_delimiter (String c s) (fun s' => Some s') = None ->
  (Ascii.eqb c "," || Ascii.eqb c ";") = false.
Proof.
  unfold competitor_delimiter. cbn [alts cats foldr Re.exec Re.one].
  unfold Re.cls_match. rewrite andb_false_l, orb_false_r.
  by destruct (Ascii.eqb c "," || Ascii.eqb c ";").
Qed.

Lemma cut_none n s :
  Re.cut n competitor_delimiter s = None -> all_chars not_delimiter s = true.
Proof.
  induction s as [|c s IH]; [done |].
  cbn [Re.cut].
  destruct (Re.exec false n competitor_delimiter (String c s) _) eqn:Hex; [done |].
  apply delimiter_fails_at in Hex.
  destruct (Re.cut n competitor_delimiter s) as [[b a]|]; [done |].
  intros _. simpl. unfold not_delimiter at 1. rewrite Hex. by apply IH.
Qed.

Lemma cut_some n s before after_ :
  Re.cut n competitor_delimiter s = Some (before, after_) ->
  all_chars not_delimiter before = true
  /\ String.length after_ < String.length s
  /\ exists mid, s = before +:+ mid +:+ after_.
Proof.
  revert before. induction s as [|c s IH]; intros before.
  - cbn [Re.cut].
    destruct (Re.exec false n competitor_delimiter "" _) eqn:Hex; [| done].
    by apply delimiter_takes_a_character in Hex as (a & s' & [=] & _).
  - cbn [Re.cut].
    destruct (Re.exec false n competitor_delimiter (String c s) _) as [s1|] eqn:Hex.
    + intros [= <- <-]. split; [done |].
      pose proof Hex as Hlen.
      apply delimiter_takes_a_character in Hlen
        as (a & s' & [= <- <-] & (s2 & [= <-] & Hlen)).
      split; [simpl; lia |].
      apply exec_consumes in Hex as (mid & s3 & Hs & _ & [= <-]).
      exists mid. by rewrite append_nil_l.
    + apply delimiter_fails_at in Hex.
      destruct (Re.cut n competitor_delimiter s) as [[b a]|] eqn:Hcut; [| done].
      intros [= <- <-].
      destruct (IH b eq_refl) as (Hb & Hlen & mid & ->).
      split_and!.
      * simpl. unfold not_delimiter at 1. by rewrite Hex, Hb.
      * simpl. lia.
      * exists mid. by rewrite append_cons.
Qed.

Lemma split_pieces n fuel : forall s,
  String.length s <= fuel ->
  Forall (fun piece => all_chars not_delimiter piece = true /\ occurs_in piece s)
         (Re.split_from fuel n competitor_delimiter s).
Proof.
  induction fuel as [|fuel IH]; intros s Hlen; simpl.
  - destruct s; [| simpl in Hlen; lia].
    repeat constructor. apply occurs_in_refl.
  - destruct (Re.cut n competitor_delimiter s) as [[b a]|] eqn:Hcut.
    + apply cut_some in Hcut as (Hb & Hshort & mid & ->).
      constructor.
      * split; [done |]. exists "", (mid +:+ a). by rewrite append_nil_l.
      * eapply Forall_impl; [apply IH; lia |].
        intros piece [Hp Hocc]. split; [done |].
        eapply occurs_in_trans; [done |].
        exists (b +:+ mid), "". by rewrite append_nil_r, append_assoc.
    + apply cut_none in Hcut. repeat constructor; [done | apply occurs_in_refl].
Qed.

Lemma competitor_names_clean text :
  Forall (fun name =>
            occurs_in name text
            /\ name <> ""
            /\ strip name = name
            /\ all_chars (fun c => negb (name_separator c)) name = true)
         (_extract_competitors text).
Proof.
  unfold _extract_competitors.
  destruct (first_search competitor_patterns text) as [m|] eqn:Hfirst; [| done].
  cbv zeta.
  apply first_search_inv in Hfirst as (pat & Hin & Hs).
  apply (search_group_text not_period) in Hs as (Hocc & _ & Hchars);
    [| by apply competitor_patterns_group].
  apply (all_chars_impl _ not_period) in Hchars; [| apply not_period_class].
  apply Forall_fmap, Forall_forall. intros piece [Hne Hpiece]%list_elem_of_filter.
  pose proof (split_pieces (String.length (Re.group1 m))
                (String.length (Re.group1 m)) (Re.group1 m) (le_n _)) as Hall.
  rewrite Forall_forall in Hall. apply Hall in Hpiece as [Hdelim Hin_group].
  simpl. split_and!.
  - eapply occurs_in_trans; [apply strip_occurs |].
    by eapply occurs_in_trans.
  - done.
  - apply strip_strip.
  - eapply occurs_in_all_chars; [apply strip_occurs |].
    pose proof (occurs_in_all_chars _ _ _ Hin_group Hchars) as Hperiod.
    clear -Hdelim Hperiod.
    induction piece as [|c piece IH]; [done |].
    simpl in *. apply andb_true_iff in Hdelim as [Hc Hd].
    apply andb_true_iff in Hperiod as [Hc' Hp].
    rewrite IH by done. rewrite andb_true_r.
    unfold name_separator, not_delimiter, not_period in *.
    destruct (Ascii.eqb c "," || Ascii.eqb c ";"); [done |].
    by destruct (Ascii.eqb c ".").
Qed.

(** X8.  Every competitor name returned stands in the text as it is, is not
    empty, has no blank at either end, and contains no comma, semicolon or
    period. *)
Theorem X8_competitor_names_are_clean text :
  Forall (fun name =>
            occurs_in name text
            /\ name <> ""
            /\ strip name = name
            /\ all_chars (fun c => negb (name_separator c)) name = true)
         (_extract_competitors text).
Proof. apply competitor_names_clean. Qed.

(* ===================================================================== *)
(** * Further properties: the classifier and the messages *)
(* ===================================================================== *)

Lemma depth_is_one_of_three text :
  _extract_depth text ∈ ["comprehensive"; "quick"; "standard"].
Proof.
  unfold _extract_depth. cbv zeta.
  destruct (_ || _ || _); [set_solver |].
  destruct (_ || _ || _); set_solver.
Qed.

Lemma region_is_titled text : _extract_region text ∈ title <$> regions.
Proof.
  unfold _extract_region. cbv zeta.
  destruct (find _ regions) as [region|] eqn:Hfind.
  - apply find_some in Hfind as [Hin _].
    apply list_elem_of_fmap. exists region. by rewrite list_elem_of_In.
  - vm_compute. set_solver.
Qed.

Lemma extracted_company_not_blank text : _extract_company_name text <> Some "".
Proof. intros H. by apply extracted_company_nonempty in H. Qed.

Lemma classified_task_shape text t :
  classify text = Some t ->
  (company_scoped_shape t \/ market_entry_shape t \/ competitive_shape t)
  /\ is_Some (endpoint_path (get t "type")).
Proof.
  rewrite classify_first_match.
  unfold rule_table, first_match. cbn [keyword_condition yields].
  assert (Hscoped : forall type_ framework,
    (type_, framework)
      ∈ [("swot", "swot"); ("analyze", "porters-five-forces"); ("analyze", "swot")] ->
    company_scoped_task type_ framework text = Some t ->
    (company_scoped_shape t \/ market_entry_shape t \/ competitive_shape t)
    /\ is_Some (endpoint_path (get t "type"))).
  { intros type_ framework Hin. unfold company_scoped_task.
    destruct (_extract_company_name text) as [company|] eqn:Hco; [| done].
    apply extracted_company_nonempty in Hco.
    destruct (String.eqb_spec company ""); [done |]. intros [= <-].
    split.
    - left. exists type_, framework, company, (_extract_depth text).
      split_and!; [done | done | done | apply depth_is_one_of_three].
    - destruct (dict_task_lookups type_ (VStr company) framework
                  (VStr (_extract_depth text))) as (Hty & _).
      unfold get. rewrite Hty. simpl.
      rewrite !elem_of_cons, elem_of_nil in Hin.
      destruct Hin as [[= -> ->] | [[= -> ->] | [[= -> ->] | []]]]; by eexists. }
  destruct (any_in swot_keywords (lower text));
    [apply Hscoped; rewrite !elem_of_cons; auto |].
  destruct (any_in five_forces_keywords (lower text));
    [apply Hscoped; rewrite !elem_of_cons; auto |].
  destruct (any_in market_entry_keywords (lower text)).
  { intros [= <-]. split.
    - right. left.
      exists (_extract_industry text), (_extract_region text),
        (_extract_company_name text).
      split_and!; [done | apply region_is_titled | apply extracted_company_not_blank].
    - unfold get, dict. cbn. by simplify_map_eq. }
  destruct (any_in competitive_keywords (lower text)).
  { intros [= <-]. split.
    - right. right.
      exists (_extract_company_name text), (_extract_competitors text).
      split_and!; [done | apply extracted_company_not_blank |].
      eapply Forall_impl; [apply competitor_names_clean |].
      by intros name (_ & Hne & _).
    - unfold get, dict. cbn. by simplify_map_eq. }
  destruct (contains "analyze" (lower text)); [| done].
  apply Hscoped. rewrite !elem_of_cons. auto.
Qed.

(** X9.  A task the classifier yields has one of three shapes: a
    company-scoped task (type and framework swot/swot, analyze/
    porters-five-forces or analyze/swot; a company that is not empty; a
    depth among comprehensive, quick, standard), a market-entry task (with
    one of the seven regions), or a competitive task (with competitor names
    that are not empty).  Its type is always one the client routes to an
    endpoint. *)
Theorem X9_classified_tasks_are_well_formed text t :
  classify text = Some t ->
  (company_scoped_shape t \/ market_entry_shape t \/ competitive_shape t)
  /\ is_Some (endpoint_path (get t "type")).
Proof. apply classified_task_shape. Qed.

(** X10.  Of a list of messages only the last is classified.  An empty
    list, and a last message without content, give no task; a last message
    whose content is not a string raises [AttributeError]. *)
Theorem X10_only_the_last_message_counts :
  (forall l m,
     _parse_message_for_task (MsgList (l ++ [m]))
     = _parse_message_for_task (MsgList [m]))
  /\ _parse_message_for_task (MsgList []) = Ret None
  /\ (forall l d,
        d !! "content" = None ->
        _parse_message_for_task (MsgList (l ++ [MsgDict d])) = Ret None)
  /\ (forall l d v,
        d !! "content" = Some v -> (forall s, v <> VStr s) ->
        _parse_message_for_task (MsgList (l ++ [MsgDict d]))
        = Raise AttributeError).
Proof.
  split_and!.
  - intros l m. unfold _parse_message_for_task, message_text.
    by rewrite last_snoc.
  - vm_compute. reflexivity.
  - intros l d Hd. unfold _parse_message_for_task, message_text, get_or.
    rewrite last_snoc, Hd. vm_compute. reflexivity.
  - intros l d v Hd Hv. unfold _parse_message_for_task, message_text, get_or.
    rewrite last_snoc, Hd. simpl. destruct v; try done. by destruct (Hv s).
Qed.

(* ===================================================================== *)
(** * Further properties: the replies *)
(* ===================================================================== *)

Section ReplyFacts.
Variable E : env.
Implicit Types (w : world) (task data : gmap string value).

Lemma execute_task_request task w :
  _execute_task E task w
  = match request_for (agent w) task with
    | Some (endpoint, data) => _make_request E endpoint data w
    | None => (VNone, w)
    end.
Proof.
  unfold _execute_task, request_for. cbv zeta.
  destruct (eq_str (get task "type") "analyze" || eq_str (get task "type") "swot");
    [apply analyze_company_eq |].
  destruct (eq_str (get task "type") "market_entry");
    [apply analyze_market_entry_eq |].
  destruct (eq_str (get task "type") "competitive");
    [apply analyze_competitive_eq | done].
Qed.

Lemma request_for_routed self task :
  is_Some (endpoint_path (get task "type")) -> is_Some (request_for self task).
Proof.
  unfold endpoint_path, request_for. cbv zeta.
  destruct (_ || _); [by eexists |].
  destruct (eq_str _ "market_entry"); [by eexists |].
  destruct (eq_str _ "competitive"); [by eexists |]. by intros [? ?].
Qed.

Lemma request_for_path self task endpoint data :
  request_for self task = Some (endpoint, data) ->
  exists path,
    endpoint_path (get task "type") = Some path
    /\ path ∈ analysis_paths
    /\ endpoint = service_url self +:+ path
    /\ data !! "sessionId" = Some (VStr (session_id self)).
Proof.
  unfold endpoint_path, request_for, analysis_paths. cbv zeta.
  destruct (_ || _).
  { intros [= <- <-]. eexists. split_and!; [done | | done |].
    - rewrite !elem_of_cons. auto.
    - unfold dict. cbn. apply lookup_insert_eq. }
  destruct (eq_str _ "market_entry").
  { intros [= <- <-]. eexists. split_and!; [done | | done |].
    - rewrite !elem_of_cons. auto.
    - unfold dict. cbn. apply lookup_insert_eq. }
  destruct (eq_str _ "competitive"); [| done].
  intros [= <- <-]. eexists. split_and!; [done | | done |].
  - rewrite !elem_of_cons. auto.
  - unfold dict. cbn. apply lookup_insert_eq.
Qed.

Lemma make_request_effort endpoint data w :
  exists r evs,
    _make_request E endpoint data w = (r, after w evs)
    /\ posts evs = replicate (length (posts evs)) (attempt_post endpoint data w)
    /\ 1 <= length (posts evs) <= max_retries
    /\ sleep_schedule evs `sublist_of` [1; 2]%Z.
Proof.
  destruct (attempts_effort E endpoint data (seq 0 max_retries) w)
    as (r & evs & Hrun & Hposts & Hmax & Hmin & Hsleep).
  exists r, evs. split_and!; [done | done | by apply Hmin | done | done].
Qed.

Lemma truthy_dict (d : gmap string value) : d <> ∅ -> truthy (VDict d) = true.
Proof. intros Hd. unfold truthy. by rewrite bool_decide_eq_false_2. Qed.

Lemma parsed_task_routed msgs task :
  _parse_message_for_task msgs = Ret (Some task) ->
  task <> ∅ /\ is_Some (endpoint_path (get task "type")).
Proof.
  unfold _parse_message_for_task.
  destruct (message_text msgs) as [| | | |text| |]; try done.
  intros [= Hc]. apply classified_task_shape in Hc as [_ Hroute].
  split; [| done]. intros ->. by destruct Hroute as [? [=]].
Qed.

(** X11.  [strategy_reply] never raises: it returns [None] or a string, and
    makes at most three POSTs.  When no task is recognized it returns
    [None] and causes no event at all; when reading the message raises it
    returns the error text and logs it, without a request; when a task is
    recognized it makes at least one POST, and all its POSTs are the one
    request of that task. *)
Theorem X11_strategy_reply_contract msgs w :
  exists r evs,
    strategy_reply E msgs w = (r, after w evs)
    /\ (r = VNone \/ exists s, r = VStr s)
    /\ length (posts evs) <= max_retries
    /\ sleep_schedule evs `sublist_of` [1; 2]%Z
    /\ match _parse_message_for_task msgs with
       | Ret None => r = VNone /\ evs = []
       | Raise e => r = error_reply E e /\ evs = [error_entry E e]
       | Ret (Some task) =>
           exists endpoint data,
             request_for (agent w) task = Some (endpoint, data)
             /\ 1 <= length (posts evs)
             /\ posts evs
                = replicate (length (posts evs))
                    (attempt_post endpoint data w)
       end.
Proof.
  unfold strategy_reply. cbv zeta.
  destruct (_parse_message_for_task msgs) as [[task|]|e] eqn:Hparse.
  - apply parsed_task_routed in Hparse as [Hne Hroute].
    rewrite (truthy_dict _ Hne).
    destruct (request_for_routed (agent w) task Hroute) as [[endpoint data] Hreq].
    unfold mbind, M_bind. cbn [negb]. cbv beta iota.
    rewrite execute_task_request, Hreq.
    destruct (make_request_effort endpoint data w)
      as (result_ & evs & -> & Hposts & [Hmin Hmax] & Hsleep).
    destruct (truthy result_);
      [destruct (_format_response E result_ task) as [s | e] |].
    + exists (VStr s), evs. split_and!; eauto 10.
    + exists (error_reply E e), (evs ++ [error_entry E e]).
      unfold log, emit, mbind, M_bind, mret, M_ret. cbn.
      rewrite posts_app, sleep_schedule_app, !app_nil_r.
      change (trace w ++ evs ++ [error_entry E e])
        with (trace (after w (evs ++ [error_entry E e]))).
      split_and!; [| by eauto | done | done | by eauto 10].
      unfold after. simpl. by rewrite app_assoc.
    + exists VNone, evs. split_and!; eauto 10.
  - exists VNone, []. rewrite after_nil.
    split_and!; [done | by left | simpl; lia | apply sublist_nil_l | done..].
  - exists (error_reply E e), [error_entry E e].
    split_and!; [done | by eauto | simpl; lia | apply sublist_nil_l | done..].
Qed.

Lemma make_request_first_200 endpoint data w text v :
  http E (requests_made (trace w)) = Response 200 text (Json v) ->
  _make_request E endpoint data w = (v, after w [attempt_post endpoint data w]).
Proof.
  intros Hok. unfold _make_request. simpl seq.
  pose proof (attempts_turn E endpoint data 0 [1; 2] w) as Hturn.
  cbv zeta in Hturn. by rewrite Hok in Hturn.
Qed.

(** X12.  When a task is recognized and the first request comes back with
    200 and a body that decodes, one POST is made and the reply is the
    formatted body; a body that is falsy ([null], [{}], [[]], [0], [""])
    gives no reply; a body the formatter raises on gives the error text,
    which is logged. *)
Theorem X12_reply_on_first_success msgs task w endpoint data text v :
  _parse_message_for_task msgs = Ret (Some task) ->
  request_for (agent w) task = Some (endpoint, data) ->
  http E (requests_made (trace w)) = Response 200 text (Json v) ->
  strategy_reply E msgs w
  = if truthy v then
      match _format_response E v task with
      | Ret s => (VStr s, after w [attempt_post endpoint data w])
      | Raise e =>
          (error_reply E e,
           after w [attempt_post endpoint data w; error_entry E e])
      end
    else (VNone, after w [attempt_post endpoint data w]).
Proof.
  intros Hparse Hreq Hok. unfold strategy_reply. cbv zeta. rewrite Hparse.
  apply parsed_task_routed in Hparse as [Hne _].
  rewrite (truthy_dict _ Hne).
  unfold mbind, M_bind. cbn [negb]. cbv beta iota.
  rewrite execute_task_request, Hreq, (make_request_first_200 _ _ _ _ _ Hok).
  destruct (truthy v); [| done].
  destruct (_format_response E v task); [done |].
  unfold log, emit, mbind, M_bind, mret, M_ret, after. cbn.
  by rewrite <- app_assoc.
Qed.
End ReplyFacts.

(* ===================================================================== *)
(** * Further properties: the addresses of the requests *)
(* ===================================================================== *)

Lemma rstrip_char_split x s :
  exists tail,
    s = rstrip_char x s +:+ tail
    /\ all_chars (fun c => Ascii.eqb c x) tail = true.
Proof.
  induction s as [|c s (tail & Hs & Htail)]; simpl.
  - by exists "".
  - destruct (rstrip_char x s) as [|c' t] eqn:Ht.
    + rewrite append_nil_l in Hs. destruct (Ascii.eqb c x) eqn:Hc.
      * exists (String c tail). simpl. by rewrite Hc, Htail, append_nil_l, Hs.
      * exists tail. by rewrite append_cons, append_nil_l, Hs.
    + exists tail. by rewrite append_cons, <- Hs.
Qed.

Lemma rstrip_char_end x s t : rstrip_char x s <> t +:+ String x "".
Proof.
  revert t. induction s as [|c s IH]; intros t; simpl.
  - by destruct t.
  - destruct (rstrip_char x s) as [|c' t'] eqn:Ht.
    + destruct (Ascii.eqb_spec c x) as [-> | Hc]; [by destruct t |].
      destruct t as [|d [|d' t]]; [| done..]. rewrite append_nil_l. congruence.
    + destruct t as [|d t]; [done |].
      rewrite append_cons. intros [= _ H]. by apply (IH t).
Qed.

Section AddressFacts.
Variable E : env.
Implicit Types (w : world) (data : gmap string value).

(** X13.  The agent stores the service URL it is given without its trailing
    slashes: the URL given is the stored one followed by slashes only, and
    the stored one does not end in a slash. *)
Theorem X13_service_url_has_no_trailing_slash name_ url timeout_ kw t0 :
  let base := service_url (agent (__init__ E name_ url timeout_ kw t0)) in
  (exists slashes,
     url = base +:+ slashes
     /\ all_chars (fun c => Ascii.eqb c "/") slashes = true)
  /\ forall t, base <> t +:+ "/".
Proof.
  cbv zeta. simpl service_url. split.
  - apply rstrip_char_split.
  - intros t. apply rstrip_char_end.
Qed.

Lemma causes_only_ret {A} P (a : A) : causes_only P (mret a).
Proof. intros w. exists a, []. by rewrite after_nil. Qed.

Lemma causes_only_bind {A B} P (m : M A) (f : A -> M B) :
  causes_only P m -> (forall a, causes_only P (f a)) -> causes_only P (m ≫= f).
Proof.
  intros Hm Hf w. unfold mbind, M_bind.
  destruct (Hm w) as (a & evs1 & -> & Hevs1).
  destruct (Hf a (after w evs1)) as (b & evs2 & -> & Hevs2).
  exists b, (evs1 ++ evs2). rewrite after_after. split; [done |].
  by apply Forall_app.
Qed.

Lemma make_request_addressed endpoint data w :
  (exists path, path ∈ analysis_paths
     /\ endpoint = service_url (agent w) +:+ path) ->
  exists r evs,
    _make_request E endpoint data w = (r, after w evs)
    /\ Forall (well_addressed (agent w)) evs.
Proof.
  intros Hpath.
  destruct (make_request_run E endpoint data w) as (r & evs & Hrun & Hevs).
  destruct (make_request_effort E endpoint data w)
    as (r' & evs' & Hrun' & Hposts & _).
  rewrite Hrun in Hrun'. injection Hrun' as -> Heq.
  apply app_inv_head in Heq as <-.
  eexists _, _. split; [done |].
  assert (Hfirst : well_addressed (agent w) (attempt_post endpoint data w))
    by done.
  constructor; [done |].
  rewrite Forall_forall in *. intros e He.
  destruct e as [|endpoint' data' timeout' headers'| | |]; try done.
  - assert (Hin : EvPost endpoint' data' timeout' headers'
                    ∈ posts (attempt_post endpoint data w :: evs)).
    { unfold posts. apply list_elem_of_filter. split; [done | by right]. }
    rewrite Hposts in Hin. apply elem_of_replicate in Hin as [Heq _].
    rewrite Heq. exact Hfirst.
  - by apply Hevs in He.
Qed.

Lemma execute_task_addressed task : causes_only well_addressed (_execute_task E task).
Proof.
  intros w. rewrite execute_task_request.
  destruct (request_for (agent w) task) as [[endpoint data]|] eqn:Hreq.
  - apply make_request_addressed.
    apply request_for_path in Hreq as (path & _ & Hin & -> & _). eauto.
  - exists VNone, []. by rewrite after_nil.
Qed.

Lemma analyze_company_addressed company framework depth :
  causes_only well_addressed (analyze_company E company framework depth).
Proof.
  intros w. rewrite analyze_company_eq. apply make_request_addressed.
  eexists. split; [| done]. unfold analysis_paths. rewrite !elem_of_cons. auto.
Qed.

Lemma analyze_market_entry_addressed industry region company :
  causes_only well_addressed (analyze_market_entry E industry region company).
Proof.
  intros w. rewrite analyze_market_entry_eq. apply make_request_addressed.
  eexists. split; [| done]. unfold analysis_paths. rewrite !elem_of_cons. auto.
Qed.

Lemma analyze_competitive_addressed company competitors :
  causes_only well_addressed (analyze_competitive E company competitors).
Proof.
  intros w. rewrite analyze_competitive_eq. apply make_request_addressed.
  eexists. split; [| done]. unfold analysis_paths. rewrite !elem_of_cons. auto.
Qed.

Lemma check_service_health_addressed :
  causes_only well_addressed (check_service_health E).
Proof.
  intros w. unfold check_service_health, mbind, M_bind, get_self, session_get.
  cbn beta iota.
  destruct (http E (requests_made (trace w)));
    eexists _, [EvGet _ _]; (split; [done |]); by repeat constructor.
Qed.

Lemma strategy_reply_addressed msgs :
  causes_only well_addressed (strategy_reply E msgs).
Proof.
  assert (Herr : forall e,
    causes_only well_addressed
      (log ERROR ("Error in strategy_reply: " +:+ str_exn E e);;
       mret (VStr ("I encountered an error while processing your request: "
                   +:+ str_exn E e)))).
  { intros e. apply causes_only_bind; [| intros; apply causes_only_ret].
    intros w. eexists tt, [EvLog _ _]. by repeat constructor. }
  unfold strategy_reply. cbv zeta.
  destruct (_parse_message_for_task msgs) as [[t|]|e];
    [| apply causes_only_ret | apply Herr].
  destruct (negb (truthy (VDict t))); [apply causes_only_ret |].
  apply causes_only_bind; [apply execute_task_addressed | intros r].
  destruct (truthy r); [| apply causes_only_ret].
  destruct (_format_response E r t); [apply causes_only_ret | apply Herr].
Qed.

Lemma run_call_addressed c : causes_only well_addressed (run_call E c).
Proof.
  destruct c; simpl;
    (apply causes_only_bind; [| intros; apply causes_only_ret]);
    auto using strategy_reply_addressed, analyze_company_addressed,
      analyze_market_entry_addressed, analyze_competitive_addressed,
      execute_task_addressed, check_service_health_addressed.
Qed.

(** X14.  Whatever calls are made on the agent, every POST goes to one of
    the three analysis paths under the agent's service URL, with the agent's
    timeout and the JSON content type, and every GET goes to the health path
    with a timeout of 5; the URL and the timeout themselves stay as they
    are. *)
Theorem X14_requests_are_well_addressed cs w :
  exists evs,
    run_calls E cs w = (tt, after w evs)
    /\ Forall (well_addressed (agent w)) evs
    /\ service_url (agent (run_calls E cs w).2) = service_url (agent w)
    /\ timeout (agent (run_calls E cs w).2) = timeout (agent w).
Proof.
  assert (Hrun : causes_only well_addressed (run_calls E cs)).
  { induction cs as [|c cs IH]; simpl; [apply causes_only_ret |].
    apply causes_only_bind; [apply run_call_addressed | by intros]. }
  destruct (Hrun w) as ([] & evs & -> & Hevs). by exists evs.
Qed.
End AddressFacts.

(* ===================================================================== *)
(** * Further properties: when the formatter raises *)
(* ===================================================================== *)

Section FormatterFacts.
Variable E : env.
Implicit Types (d task analysis : gmap string value).





End FormatterFacts.

(* ===================================================================== *)
(** * Further properties: the case of the text *)
(* ===================================================================== *)

Lemma lower_or_upper a : a = to_lower a \/ a = to_upper a.
Proof. destruct a as [[] [] [] [] [] [] [] []]; vm_compute; auto. Qed.

Lemma upper_of_lower a : to_upper a = to_upper (to_lower a).
Proof. by destruct a as [[] [] [] [] [] [] [] []]. Qed.

Lemma lower_alpha_or_same a : is_alpha (to_lower a) = true \/ to_lower a = a.
Proof. destruct a as [[] [] [] [] [] [] [] []]; vm_compute; auto. Qed.

Lemma lower_cons c s : lower (String c s) = String (to_lower c) (lower s).
Proof. reflexivity. Qed.

Lemma same_lower_cons a s b t :
  lower (String a s) = lower (String b t) ->
  to_lower a = to_lower b /\ lower s = lower t.
Proof. rewrite !lower_cons. by intros [= -> ->]. Qed.

Lemma same_lower_nil_l t : lower "" = lower t -> t = "".
Proof. by destruct t. Qed.

Lemma same_lower_length s : forall t,
  lower s = lower t -> String.length s = String.length t.
Proof.
  induction s as [|a s IH]; intros [|b t]; try done.
  intros [_ H]%same_lower_cons. simpl. by rewrite (IH t).
Qed.

Lemma chr_match_ignorecase c a b :
  to_lower a = to_lower b -> Re.chr_match true c a = Re.chr_match true c b.
Proof. unfold Re.chr_match. by intros ->. Qed.

Lemma cls_match_ignorecase p a :
  Re.cls_match true p a = p (to_lower a) || p (to_upper a).
Proof.
  unfold Re.cls_match. simpl.
  destruct (lower_or_upper a) as [Ha | Ha]; rewrite Ha at 1;
    by destruct (p (to_lower a)), (p (to_upper a)).
Qed.

Lemma cls_match_same_lower p a b :
  to_lower a = to_lower b -> Re.cls_match true p a = Re.cls_match true p b.
Proof.
  intros H. rewrite !cls_match_ignorecase, (upper_of_lower a), (upper_of_lower b).
  by rewrite H.
Qed.

(** A character that is no letter is told from the others whatever their
    case. *)
Lemma lower_of_nonalpha c : is_alpha c = false -> to_lower c = c.
Proof. destruct c as [[] [] [] [] [] [] [] []]; vm_compute; congruence. Qed.

Lemma eqb_same_lower c a b :
  is_alpha c = false -> to_lower a = to_lower b -> Ascii.eqb c a = Ascii.eqb c b.
Proof.
  intros Hc H.
  assert (Hone : forall x y, to_lower x = to_lower y -> c = x -> c = y).
  { intros x y Hxy <-. rewrite (lower_of_nonalpha c Hc) in Hxy.
    destruct (lower_alpha_or_same y) as [Hy | Hy]; congruence. }
  destruct (Ascii.eqb_spec c a) as [Ha | Ha], (Ascii.eqb_spec c b) as [Hb | Hb];
    try done.
  - destruct Hb. by apply (Hone a b).
  - destruct Ha. by apply (Hone b a).
Qed.

Lemma is_Some_or_else {A} (o o' : option A) :
  is_Some (match o with Some x => Some x | None => o' end)
  <-> is_Some o \/ is_Some o'.
Proof.
  destruct o; split; eauto.
  intros [[? [=]] | H]; done.
Qed.

Lemma is_Some_None {A} : is_Some (@None A) <-> False.
Proof. split; [by intros [? ?] | done]. Qed.

Section CaseFacts.
Context {A B : Type}.
Variables (ic : bool) (n : nat).
Implicit Types (s t : string).

Lemma lit_alike l :
  ic = true \/ all_chars (fun c => negb (is_alpha c)) l = true ->
  forall s t (k : string -> option A) (k' : string -> option B),
    lower s = lower t -> alike k k' ->
    is_Some (Re.lit ic l s k) <-> is_Some (Re.lit ic l t k').
Proof.
  induction l as [|c l IH]; intros Hl s t k k' Hst Hk; simpl.
  - by apply Hk.
  - destruct s as [|a s], t as [|b t]; try done.
    apply same_lower_cons in Hst as [Hab Hst].
    assert (Hc : Re.chr_match ic c a = Re.chr_match ic c b).
    { destruct Hl as [-> | Hl]; [by apply chr_match_ignorecase |].
      destruct ic; [by apply chr_match_ignorecase |].
      simpl in Hl. apply andb_true_iff in Hl as [Hc%negb_true_iff _].
      by apply eqb_same_lower. }
    rewrite Hc. destruct (Re.chr_match ic c b); [| by rewrite !is_Some_None].
    apply IH; [| done..].
    destruct Hl as [-> | Hl]; [by left | right].
    simpl in Hl. by apply andb_true_iff in Hl as [_ Hl].
Qed.

Lemma cls_alike p a b :
  ic = true \/ (forall x, p x = p (to_lower x)) ->
  to_lower a = to_lower b ->
  Re.cls_match ic p a = Re.cls_match ic p b.
Proof.
  intros Hp Hab.
  destruct ic; [by apply cls_match_same_lower |].
  destruct Hp as [[=] | Hp]. unfold Re.cls_match. simpl.
  by rewrite !orb_false_r, (Hp a), (Hp b), Hab.
Qed.

Lemma one_alike p :
  ic = true \/ (forall x, p x = p (to_lower x)) ->
  forall s t (k : string -> option A) (k' : string -> option B),
    lower s = lower t -> alike k k' ->
    is_Some (Re.one ic p s k) <-> is_Some (Re.one ic p t k').
Proof.
  intros Hp s t k k' Hst Hk.
  destruct s as [|a s], t as [|b t]; simpl; try done.
  apply same_lower_cons in Hst as [Hab Hst].
  rewrite (cls_alike p a b Hp Hab).
  destruct (Re.cls_match ic p b); [by apply Hk | by rewrite !is_Some_None].
Qed.

Lemma star_alike p :
  ic = true \/ (forall x, p x = p (to_lower x)) ->
  forall s t (k : string -> option A) (k' : string -> option B),
    lower s = lower t -> alike k k' ->
    is_Some (Re.star ic p s k) <-> is_Some (Re.star ic p t k').
Proof.
  intros Hp s. induction s as [|a s IH]; intros t k k' Hst Hk.
  - apply same_lower_nil_l in Hst as ->. by apply Hk.
  - destruct t as [|b t]; [done |]. simpl.
    pose proof Hst as [Hab Hst']%same_lower_cons.
    rewrite (cls_alike p a b Hp Hab).
    destruct (Re.cls_match ic p b); [| by apply Hk].
    rewrite !is_Some_or_else, (IH t k k' Hst' Hk), (Hk _ _ Hst). tauto.
Qed.

Lemma star_lazy_alike p :
  ic = true \/ (forall x, p x = p (to_lower x)) ->
  forall s t (k : string -> option A) (k' : string -> option B),
    lower s = lower t -> alike k k' ->
    is_Some (Re.star_lazy ic p s k) <-> is_Some (Re.star_lazy ic p t k').
Proof.
  intros Hp s. induction s as [|a s IH]; intros t k k' Hst Hk.
  - pose proof Hst as ->%same_lower_nil_l. simpl.
    rewrite !is_Some_or_else, (Hk "" "" eq_refl), !is_Some_None. tauto.
  - destruct t as [|b t]; [done |]. simpl.
    pose proof Hst as [Hab Hst']%same_lower_cons.
    rewrite !is_Some_or_else, (Hk _ _ Hst), (cls_alike p a b Hp Hab).
    destruct (Re.cls_match ic p b);
      [rewrite (IH t k k' Hst' Hk) | rewrite !is_Some_None]; tauto.
Qed.

Lemma at_eol_same_lower s t : lower s = lower t -> Re.at_eol s = Re.at_eol t.
Proof.
  destruct s as [|a [|a' s]], t as [|b [|b' t]]; try done.
  intros [Hab _]%same_lower_cons. simpl.
  rewrite !(Ascii.eqb_sym _ "010"). by apply eqb_same_lower.
Qed.

Lemma exec_alike r :
  ic = true \/ caseless r ->
  forall s t (k : string -> option A) (k' : string -> option B),
    lower s = lower t -> alike k k' ->
    is_Some (Re.exec ic n r s k) <-> is_Some (Re.exec ic n r t k').
Proof.
  induction r as [l|p|r1 IH1 r2 IH2|r1 IH1 r2 IH2|r IH|p|p|p| |];
    intros Hr s t k k' Hst Hk; simpl.
  - by apply lit_alike.
  - by apply one_alike.
  - apply IH1; [destruct Hr as [-> | [H1 _]]; auto | done |].
    intros s' t' Hst'. apply IH2; [destruct Hr as [-> | [_ H2]]; auto | done..].
  - rewrite !is_Some_or_else.
    rewrite (IH1 ltac:(destruct Hr as [-> | [H1 _]]; auto) s t k k' Hst Hk).
    rewrite (IH2 ltac:(destruct Hr as [-> | [_ H2]]; auto) s t k k' Hst Hk).
    tauto.
  - rewrite !is_Some_or_else, (IH Hr s t k k' Hst Hk), (Hk _ _ Hst). tauto.
  - by apply star_alike.
  - apply one_alike; [done | done |].
    intros s' t' Hst'. by apply star_alike.
  - apply one_alike; [done | done |].
    intros s' t' Hst'. by apply star_lazy_alike.
  - rewrite (same_lower_length _ _ Hst).
    destruct (Nat.eqb _ n); [by apply Hk | by rewrite !is_Some_None].
  - rewrite (at_eol_same_lower _ _ Hst).
    destruct (Re.at_eol t); [by apply Hk | by rewrite !is_Some_None].
Qed.

Lemma scan_alike (m : string -> option A) (m' : string -> option B) :
  alike m m' ->
  forall s t, lower s = lower t ->
    is_Some (Re.scan m s) <-> is_Some (Re.scan m' t).
Proof.
  intros Hm s. induction s as [|a s IH]; intros t Hst.
  - pose proof Hst as ->%same_lower_nil_l. simpl.
    rewrite !is_Some_or_else, (Hm "" "" eq_refl), !is_Some_None. tauto.
  - destruct t as [|b t]; [done |]. simpl.
    pose proof Hst as [_ Hst']%same_lower_cons.
    rewrite !is_Some_or_else, (Hm _ _ Hst), (IH t Hst'). tauto.
Qed.
End CaseFacts.

Lemma search_alike ic pat s t :
  ic = true \/ caseless_pattern pat ->
  lower s = lower t ->
  is_Some (Re.search ic pat s) <-> is_Some (Re.search ic pat t).
Proof.
  intros Hpat Hst. unfold Re.search.
  rewrite (same_lower_length _ _ Hst).
  apply scan_alike; [| done].
  intros s' t' Hst'. unfold Re.match_here.
  apply exec_alike; [destruct Hpat as [-> | (? & ? & ?)]; auto | done |].
  intros s1 t1 H1.
  apply exec_alike; [destruct Hpat as [-> | (? & ? & ?)]; auto | done |].
  intros s2 t2 H2.
  apply exec_alike; [destruct Hpat as [-> | (? & ? & ?)]; auto | done |].
  intros s3 t3 H3. split; eauto.
Qed.

Lemma first_search_alike pats s t :
  lower s = lower t ->
  is_Some (first_search pats s) <-> is_Some (first_search pats t).
Proof.
  intros Hst. induction pats as [|pat pats IH]; simpl; [done |].
  rewrite !is_Some_or_else, IH.
  rewrite (search_alike true pat s t (or_introl eq_refl) Hst). tauto.
Qed.

Lemma findall_nonempty pat s :
  Re.findall pat s <> [] <-> is_Some (Re.search false pat s).
Proof.
  unfold Re.findall, Re.search. simpl.
  destruct (Re.scan _ s); split; first [done | by intros [? ?] | eauto].
Qed.

Lemma quoted_pattern_caseless : caseless_pattern quoted_pattern.
Proof.
  split_and!; try done.
  intros a. by destruct a as [[] [] [] [] [] [] [] []].
Qed.

Lemma company_name_found_alike s t :
  lower s = lower t ->
  is_Some (_extract_company_name s) <-> is_Some (_extract_company_name t).
Proof.
  intros Hst.
  assert (Hname : forall u, is_Some (_extract_company_name u)
            <-> is_Some (first_search company_patterns u)
                \/ is_Some (Re.search false quoted_pattern u)).
  { intros u. unfold _extract_company_name.
    rewrite <- findall_nonempty.
    destruct (first_search company_patterns u); [split; eauto |].
    destruct (Re.findall quoted_pattern u); split; eauto.
    - intros [? [=]].
    - intros [[? [=]] | ?]; done. }
  rewrite !Hname, (first_search_alike _ s t Hst).
  rewrite (search_alike false _ s t (or_intror quoted_pattern_caseless) Hst).
  done.
Qed.

Lemma company_scoped_task_kind type_ framework s t :
  lower s = lower t ->
  task_kind <$> company_scoped_task type_ framework s
  = task_kind <$> company_scoped_task type_ framework t.
Proof.
  intros Hst. unfold company_scoped_task.
  pose proof (company_name_found_alike s t Hst) as Hfound.
  assert (Hdepth : _extract_depth s = _extract_depth t).
  { unfold _extract_depth. by rewrite Hst. }
  destruct (_extract_company_name s) as [c|] eqn:Hs,
           (_extract_company_name t) as [c'|] eqn:Ht.
  - apply extracted_company_nonempty in Hs, Ht.
    apply String.eqb_neq in Hs, Ht. rewrite Hs, Ht, Hdepth. done.
  - destruct Hfound as [[? [=]] _]. eauto.
  - destruct Hfound as [_ [? [=]]]. eauto.
  - done.
Qed.

(** X16. The kind of task does not depend on the case of the text: two
    texts that differ only in the case of their letters are classified
    alike, one gives a task exactly when the other does, and the two tasks
    have the same type, framework, depth and region. *)
Theorem X16_classification_ignores_case s t :
  lower s = lower t ->
  task_kind <$> classify s = task_kind <$> classify t.
Proof.
  intros Hst. rewrite !classify_first_match.
  unfold rule_table, first_match. cbn [keyword_condition yields].
  rewrite Hst.
  destruct (any_in swot_keywords (lower t));
    [by apply company_scoped_task_kind |].
  destruct (any_in five_forces_keywords (lower t));
    [by apply company_scoped_task_kind |].
  destruct (any_in market_entry_keywords (lower t)).
  { unfold market_entry_task, _extract_region. by rewrite Hst. }
  destruct (any_in competitive_keywords (lower t)); [done |].
  destruct (contains "analyze" (lower t)); [| done].
  by apply company_scoped_task_kind.
Qed.


(* ===================================================================== *)
(** * Facts about the orchestrator's reading of a chat *)
(* ===================================================================== *)

Import Orchestrator.

Lemma file_by_sender_text sender text r :
  exists r', file_by_sender sender (VStr text) r = Ret r'
    /\ company r' = company r /\ timestamp r' = timestamp r
    /\ recommendations r' = recommendations r.
Proof.
  unfold file_by_sender. cbn [value_lower mbind result_bind].
  repeat case_match; by eexists.
Qed.

Lemma read_message_text message r :
  has_text message = true ->
  exists r', read_message message r = Ret r'.
Proof.
  unfold has_text, content_of, read_message. cbv zeta.
  destruct (get_or message "content" (VStr "")) as [| | | |text| |]; try done.
  intros _.
  destruct (file_by_sender_text (get_or message "name" (VStr "")) text r)
    as (r1 & -> & _).
  cbn [value_lower value_findall mbind result_bind].
  case_match; by eexists.
Qed.

Lemma read_message_no_text message r :
  has_text message = false ->
  read_message message r = Raise AttributeError.
Proof.
  unfold has_text, content_of, read_message, file_by_sender. cbv zeta.
  destruct (get_or message "content" (VStr "")) as [| | | |text| |]; try done;
    intros _; cbn [value_lower mbind result_bind];
    repeat case_match; done.
Qed.

Lemma read_messages_app ms1 ms2 r :
  read_messages (ms1 ++ ms2) r
  = r' ← read_messages ms1 r; read_messages ms2 r'.
Proof.
  revert r. induction ms1 as [|m ms1 IH]; intros r; simpl; [done |].
  destruct (read_message m r) as [r1|e]; cbn [mbind result_bind]; [| done].
  apply IH.
Qed.

Lemma read_messages_cases ms r :
  if forallb has_text ms
  then exists r', read_messages ms r = Ret r'
  else read_messages ms r = Raise AttributeError.
Proof.
  revert r. induction ms as [|m ms IH]; intros r; simpl; [by eexists |].
  destruct (has_text m) eqn:Hm; cbn [andb].
  - destruct (read_message_text m r Hm) as [r1 ->]. cbn [mbind result_bind].
    apply IH.
  - by rewrite (read_message_no_text m r Hm).
Qed.

(** X17.  Reading a chat returns results exactly when the content of every
    message is a [str] (or missing): one message whose content is anything
    else, [None] for one, makes it raise [AttributeError], whoever sent it
    and whatever the other messages are. *)
Theorem X17_chat_is_read_iff_every_content_is_text now messages :
  if forallb has_text messages
  then exists r, _extract_results_from_chat now messages = Ret r
  else _extract_results_from_chat now messages = Raise AttributeError.
Proof. apply read_messages_cases. Qed.

Lemma read_message_recommendations m r r' :
  read_message m r = Ret r' ->
  recommendations r' = recommendations r ++ recommended m
  /\ company r' = company r /\ timestamp r' = timestamp r.
Proof.
  unfold read_message, recommended, content_of. cbv zeta.
  destruct (get_or m "content" (VStr "")) as [| | | |text| |] eqn:Hc;
    try (unfold file_by_sender; cbn [value_lower mbind result_bind];
         repeat case_match; done).
  destruct (file_by_sender_text (get_or m "name" (VStr "")) text r)
    as (r1 & -> & Hcompany & Htime & Hrecs).
  cbn [value_lower value_findall mbind result_bind].
  destruct (contains "recommend" (lower text)); intros [= <-]; simpl.
  - by rewrite Hrecs.
  - by rewrite Hrecs, app_nil_r.
Qed.

Lemma read_messages_recommendations ms r r' :
  read_messages ms r = Ret r' ->
  recommendations r' = recommendations r ++ mjoin (recommended <$> ms)
  /\ company r' = company r /\ timestamp r' = timestamp r.
Proof.
  revert r. induction ms as [|m ms IH]; intros r; simpl.
  - intros [= <-]. by rewrite app_nil_r.
  - destruct (read_message m r) as [r1|e] eqn:Hm; cbn [mbind result_bind];
      [| done].
    apply read_message_recommendations in Hm as (Hrecs & Hcompany & Htime).
    intros (-> & -> & ->)%IH. by rewrite Hrecs, Hcompany, Htime, app_assoc.
Qed.

(** Every group that [findall] returns stands in the text, is not empty and
    is made of characters of the group's class. *)
Lemma findall_from_groups q pat n fuel s :
  group_of_class q (Re.grp pat) ->
  Forall (fun g => occurs_in g s /\ g <> "" /\ all_chars q g = true)
         (Re.findall_from fuel n pat s).
Proof.
  intros Hgrp. revert s. induction fuel as [|fuel IH]; intros s; simpl; [done |].
  destruct (Re.scan _ s) as [m|] eqn:Hscan; [| done].
  apply scan_suffix in Hscan as (p & s' & -> & H).
  pose proof H as (p0 & s1 & -> & _ & H1)%exec_consumes.
  pose proof H1 as (g & s2 & -> & _ & H2)%Hgrp.
  pose proof H2 as (p2 & s3 & -> & _ & [= Hm])%exec_consumes.
  eapply match_here_group_text in H as (Hocc & Hne & Hq); [| done].
  constructor.
  - split_and!; [| done |].
    + eapply occurs_in_trans; [done |]. exists p, "". by rewrite append_nil_r.
    + eapply all_chars_impl; [| done].
      intros a. unfold Re.cls_match. simpl. by rewrite orb_false_r.
  - eapply Forall_impl; [apply (IH (Re.rest m)) |].
    intros g' (Hocc' & ? & ?). split; [| done].
    eapply occurs_in_trans; [done |]. rewrite <- Hm. simpl.
    exists (p +:+ p0 +:+ g +:+ p2), "".
    by rewrite append_nil_r, !append_assoc.
Qed.

(** X18.  Every recommendation read from a chat is part of a line of a
    message that mentions a recommendation: it stands in the content of such
    a message as it is, is not empty and has no newline in it. *)
Theorem X18_recommendations_come_from_messages_that_mention_them
    now messages r rec :
  _extract_results_from_chat now messages = Ret r ->
  rec ∈ recommendations r ->
  rec <> "" /\ all_chars not_newline rec = true
  /\ exists message text,
       message ∈ messages /\ content_of message = VStr text
       /\ mentions "recommend" (VStr text) = true /\ occurs_in rec text.
Proof.
  intros (Hrecs & _)%read_messages_recommendations. rewrite Hrecs. simpl.
  intros (recs & Hrec & (m & -> & Hm)%list_elem_of_fmap)%list_elem_of_join.
  unfold recommended in Hrec.
  destruct (content_of m) as [| | | |text| |] eqn:Hc;
    try by apply elem_of_nil in Hrec.
  destruct (contains "recommend" (lower text)) eqn:Hword;
    [| by apply elem_of_nil in Hrec].
  pose proof (findall_from_groups not_newline recommendation_pattern
                (String.length text) (S (String.length text)) text
                (plus_group_of_class _)) as Hall.
  rewrite Forall_forall in Hall.
  destruct (Hall rec Hrec) as (Hocc & Hne & Hq).
  split_and!; [done.. |]. by exists m, text.
Qed.

(** X19.  The recommendations of a chat are those of its parts, in order:
    reading two chats one after the other gives the recommendations of the
    first followed by those of the second; and what is read names no
    company, whatever the messages say. *)
Theorem X19_recommendations_of_a_chat_in_two_parts now ms1 ms2 r :
  _extract_results_from_chat now (ms1 ++ ms2) = Ret r ->
  exists r1 r2,
    _extract_results_from_chat now ms1 = Ret r1
    /\ _extract_results_from_chat now ms2 = Ret r2
    /\ recommendations r = recommendations r1 ++ recommendations r2
    /\ company r = "" /\ timestamp r = now.
Proof.
  unfold _extract_results_from_chat. intros Hrun.
  pose proof (read_messages_cases (ms1 ++ ms2) (Results "" now ∅ ∅ ∅ ∅ []))
    as Hall.
  rewrite Hrun, forallb_app in Hall.
  destruct (forallb has_text ms1) eqn:H1, (forallb has_text ms2) eqn:H2;
    try done.
  pose proof (read_messages_cases ms1 (Results "" now ∅ ∅ ∅ ∅ [])) as Hr1.
  pose proof (read_messages_cases ms2 (Results "" now ∅ ∅ ∅ ∅ [])) as Hr2.
  rewrite H1 in Hr1. rewrite H2 in Hr2.
  destruct Hr1 as [r1 Hr1], Hr2 as [r2 Hr2]. exists r1, r2.
  apply read_messages_recommendations in Hrun as (Hrecs & Hcompany & Htime).
  pose proof Hr1 as (Hrecs1 & _)%read_messages_recommendations.
  pose proof Hr2 as (Hrecs2 & _)%read_messages_recommendations.
  split_and!; [done.. | | done | done].
  rewrite Hrecs, Hrecs1, Hrecs2. simpl.
  by rewrite fmap_app, join_app.
Qed.

Lemma eq_str_true v s : eq_str v s = true -> v = VStr s.
Proof.
  destruct v; try done. simpl. by intros ->%String.eqb_eq.
Qed.

Lemma said_by_snoc sender ms m :
  said_by sender (ms ++ [m])
  = said_by sender ms ++ (if sent_by sender m then [content_of m] else []).
Proof.
  unfold said_by. rewrite List.filter_app, fmap_app. simpl.
  by destruct (sent_by sender m).
Qed.

Lemma last_under_snoc key contents content :
  last_under key (contents ++ [content])
  = <[key := content]> (last_under key contents).
Proof.
  unfold last_under. rewrite last_snoc.
  destruct (last contents).
  - by rewrite insert_singleton_eq.
  - by rewrite insert_empty.
Qed.

Lemma filter_snoc {A} (f : A -> bool) l x :
  List.filter f (l ++ [x]) = List.filter f l ++ (if f x then [x] else []).
Proof. rewrite List.filter_app. simpl. by destruct (f x). Qed.

(** What one message does to the four analyses. *)
Lemma read_message_analyses m r r' :
  read_message m r = Ret r' ->
  market_research r'
  = (if sent_by "MarketResearcher" m
     then <["insights" := content_of m]> (market_research r)
     else market_research r)
  /\ financial_analysis r'
     = (if sent_by "FinancialAnalyst" m
        then <["metrics" := content_of m]> (financial_analysis r)
        else financial_analysis r)
  /\ risk_assessment r'
     = (if sent_by "RiskAnalyst" m
        then <["risks" := content_of m]> (risk_assessment r)
        else risk_assessment r)
  /\ strategic_analysis r'
     = (if sent_by "StrategyConsultant" m then
          if mentions "swot" (content_of m)
          then <["swot" := content_of m]> (strategic_analysis r)
          else if mentions "porter" (content_of m)
               then <["porters" := content_of m]> (strategic_analysis r)
               else strategic_analysis r
        else strategic_analysis r).
Proof.
  unfold read_message, sent_by, content_of. cbv zeta.
  destruct (get_or m "content" (VStr "")) as [| | | |text| |] eqn:Hc;
    try (unfold file_by_sender; cbn [value_lower mbind result_bind];
         repeat case_match; done).
  assert (Hlast : forall r1,
            (content_lower ← value_lower (VStr text);
             if contains "recommend" content_lower
             then recs ← value_findall recommendation_pattern (VStr text);
                  Ret (extend_recommendations recs r1)
             else Ret r1) = Ret r' ->
            market_research r' = market_research r1
            /\ financial_analysis r' = financial_analysis r1
            /\ risk_assessment r' = risk_assessment r1
            /\ strategic_analysis r' = strategic_analysis r1).
  { intros r1. cbn [value_lower value_findall mbind result_bind].
    by destruct (contains "recommend" (lower text)); intros [= <-]. }
  unfold file_by_sender. cbn [value_lower mentions mbind result_bind].
  destruct (eq_str (get_or m "name" (VStr "")) "StrategyConsultant") eqn:H1.
  { apply eq_str_true in H1 as ->. cbn [eq_str String.eqb Ascii.eqb Bool.eqb].
    destruct (contains "swot" (lower text));
      [| destruct (contains "porter" (lower text))];
      cbn [mbind result_bind]; by intros (-> & -> & -> & ->)%Hlast. }
  destruct (eq_str (get_or m "name" (VStr "")) "MarketResearcher") eqn:H2.
  { apply eq_str_true in H2 as ->. cbn [eq_str String.eqb Ascii.eqb Bool.eqb].
    cbn [mbind result_bind]. by intros (-> & -> & -> & ->)%Hlast. }
  destruct (eq_str (get_or m "name" (VStr "")) "FinancialAnalyst") eqn:H3.
  { apply eq_str_true in H3 as ->. cbn [eq_str String.eqb Ascii.eqb Bool.eqb].
    cbn [mbind result_bind]. by intros (-> & -> & -> & ->)%Hlast. }
  destruct (eq_str (get_or m "name" (VStr "")) "RiskAnalyst") eqn:H4;
    cbn [mbind result_bind]; by intros (-> & -> & -> & ->)%Hlast.
Qed.

Lemma read_messages_snoc ms m r r' :
  read_messages (ms ++ [m]) r = Ret r' ->
  exists r1, read_messages ms r = Ret r1 /\ read_message m r1 = Ret r'.
Proof.
  rewrite read_messages_app.
  destruct (read_messages ms r) as [r1|e]; cbn [mbind result_bind]; [| done].
  simpl. destruct (read_message m r1) as [r2|e] eqn:Hm;
    cbn [mbind result_bind]; [| done].
  intros [= <-]. eauto.
Qed.

(** X20.  Each analysis keeps the last word of its agent: what is read
    under market research, financial analysis and risk assessment is the
    content of the last message of that agent and nothing else, whatever
    came before; the SWOT of the strategic analysis is the last message of
    the strategy consultant that mentions it, and its Porter analysis the
    last that mentions Porter and not SWOT. *)
Theorem X20_each_analysis_keeps_the_last_word now messages r :
  _extract_results_from_chat now messages = Ret r ->
  market_research r
  = last_under "insights" (said_by "MarketResearcher" messages)
  /\ financial_analysis r
     = last_under "metrics" (said_by "FinancialAnalyst" messages)
  /\ risk_assessment r
     = last_under "risks" (said_by "RiskAnalyst" messages)
  /\ strategic_analysis r !! "swot"
     = last (List.filter (mentions "swot")
               (said_by "StrategyConsultant" messages))
  /\ strategic_analysis r !! "porters"
     = last (List.filter
               (fun content => mentions "porter" content
                               && negb (mentions "swot" content))
               (said_by "StrategyConsultant" messages)).
Proof.
  unfold _extract_results_from_chat. revert r.
  induction messages as [|m ms IH] using rev_ind; intros r.
  { by intros [= <-]. }
  intros (r1 & Hms & Hm)%read_messages_snoc.
  destruct (IH r1 Hms) as (Hmarket & Hfinancial & Hrisk & Hswot & Hporter).
  apply read_message_analyses in Hm as (-> & -> & -> & ->).
  rewrite !said_by_snoc. split_and!.
  - destruct (sent_by "MarketResearcher" m).
    + by rewrite last_under_snoc, Hmarket.
    + by rewrite app_nil_r.
  - destruct (sent_by "FinancialAnalyst" m).
    + by rewrite last_under_snoc, Hfinancial.
    + by rewrite app_nil_r.
  - destruct (sent_by "RiskAnalyst" m).
    + by rewrite last_under_snoc, Hrisk.
    + by rewrite app_nil_r.
  - destruct (sent_by "StrategyConsultant" m); [| by rewrite app_nil_r].
    rewrite filter_snoc.
    destruct (mentions "swot" (content_of m)).
    + by rewrite last_snoc, lookup_insert_eq.
    + rewrite app_nil_r.
      destruct (mentions "porter" (content_of m)); [| done].
      by rewrite lookup_insert_ne.
  - destruct (sent_by "StrategyConsultant" m); [| by rewrite app_nil_r].
    rewrite filter_snoc.
    destruct (mentions "swot" (content_of m)); cbn [negb andb].
    + rewrite andb_false_r, app_nil_r. by rewrite lookup_insert_ne.
    + destruct (mentions "porter" (content_of m)); cbn [andb].
      * by rewrite last_snoc, lookup_insert_eq.
      * by rewrite app_nil_r.
Qed.

(* ===================================================================== *)
(** * The further statements at sample inputs *)
(* ===================================================================== *)

(** A 503 and then a 200: the second POST is the last, and its body is
    returned. *)
Lemma X2_recovers_after_one_503 :
  exists evs,
    _make_request sample_env_recovering "http://localhost:3001/api/analyze"
      sample_body (sample_world sample_env_recovering)
    = (VDict sample_result,
       after (sample_world sample_env_recovering)
         (evs ++ [attempt_post "http://localhost:3001/api/analyze" sample_body
                    (sample_world sample_env_recovering)]))
    /\ length (posts evs) = 1.
Proof.
  apply (X2_make_request_returns_decoded_body sample_env_recovering _ _ _ 1 "{...}").
  - unfold max_retries. lia.
  - intros j Hj. assert (j = 0) as -> by lia. left. reflexivity.
  - reflexivity.
Defined.

Lemma X3_three_posts_on_503s :
  exists evs,
    _make_request sample_env "http://localhost:3001/api/analyze" sample_body
      (sample_world sample_env)
    = (VNone, after (sample_world sample_env) evs)
    /\ length (posts evs) = max_retries
    /\ ((forall j, j < max_retries ->
           http sample_env (requests_made (trace (sample_world sample_env)) + j)
           = Timeout) ->
        sleep_schedule evs = []).
Proof.
  apply (X3_three_posts_when_every_attempt_is_retried sample_env).
  intros j Hj. left. reflexivity.
Defined.

Lemma X4_gives_up_on_a_page_that_is_not_json :
  exists evs,
    _make_request sample_env_garbled "http://localhost:3001/api/analyze"
      sample_body (sample_world sample_env_garbled)
    = (VNone,
       after (sample_world sample_env_garbled)
         (evs ++ [attempt_post "http://localhost:3001/api/analyze" sample_body
                    (sample_world sample_env_garbled);
                  EvLog ERROR "Unexpected error in request: Expecting value"]))
    /\ length (posts evs) = 0.
Proof.
  apply (X4_undecodable_body_or_unexpected_error_aborts sample_env_garbled
           _ _ _ 0 "Expecting value").
  - unfold max_retries. lia.
  - intros j Hj. lia.
  - left. by exists "<html>".
Defined.

Lemma X5_tesla_comes_from_the_text :
  occurs_in "Tesla" "Run a SWOT for Tesla"
  /\ "Tesla" <> ""
  /\ (is_Some (first_search company_patterns "Run a SWOT for Tesla") ->
      strip "Tesla" = "Tesla").
Proof.
  apply (X5_company_name_comes_from_the_text "Run a SWOT for Tesla" "Tesla").
  vm_compute. reflexivity.
Defined.

Lemma X9_swot_task_is_well_formed :
  (company_scoped_shape sample_task \/ market_entry_shape sample_task
   \/ competitive_shape sample_task)
  /\ is_Some (endpoint_path (get sample_task "type")).
Proof.
  apply (X9_classified_tasks_are_well_formed "Run a SWOT for Tesla").
  vm_compute. reflexivity.
Defined.

Lemma X12_reply_to_swot_for_tesla :
  strategy_reply sample_env_ok (sample_messages "Run a SWOT for Tesla")
    (sample_world sample_env_ok)
  = if truthy (VDict sample_result) then
      match _format_response sample_env_ok (VDict sample_result) sample_task with
      | Ret s =>
          (VStr s,
           after (sample_world sample_env_ok)
             [attempt_post "http://localhost:3001/api/analyze" sample_body
                (sample_world sample_env_ok)])
      | Raise e =>
          (error_reply sample_env_ok e,
           after (sample_world sample_env_ok)
             [attempt_post "http://localhost:3001/api/analyze" sample_body
                (sample_world sample_env_ok);
              error_entry sample_env_ok e])
      end
    else
      (VNone,
       after (sample_world sample_env_ok)
         [attempt_post "http://localhost:3001/api/analyze" sample_body
            (sample_world sample_env_ok)]).
Proof.
  apply (X12_reply_on_first_success sample_env_ok _ _ _ _ _ "{...}");
    vm_compute; reflexivity.
Defined.



(** The same request in capitals and in small letters. *)
Lemma X16_swot_for_tesla_in_any_case :
  lower "RUN A SWOT FOR TESLA" = lower "run a swot for Tesla"
  /\ task_kind <$> classify "RUN A SWOT FOR TESLA"
     = task_kind <$> classify "run a swot for Tesla".
Proof.
  split; [reflexivity |].
  apply X16_classification_ignores_case. reflexivity.
Defined.


(** The sample chat: two messages of the market researcher around one of the
    strategy consultant with two numbered recommendations. *)
Lemma X18_expand_to_asia_comes_from_the_consultant :
  "Expand to Asia" <> "" /\ all_chars not_newline "Expand to Asia" = true
  /\ exists message text,
       message ∈ sample_chat /\ content_of message = VStr text
       /\ mentions "recommend" (VStr text) = true
       /\ occurs_in "Expand to Asia" text.
Proof.
  apply (X18_recommendations_come_from_messages_that_mention_them
           "2024-05-01T09:30:00" sample_chat sample_reading).
  - vm_compute. reflexivity.
  - simpl. left.
Defined.

Lemma X19_sample_chat_in_two_parts :
  exists r1 r2,
    _extract_results_from_chat "2024-05-01T09:30:00" (take 2 sample_chat)
    = Ret r1
    /\ _extract_results_from_chat "2024-05-01T09:30:00" (drop 2 sample_chat)
       = Ret r2
    /\ recommendations sample_reading
       = recommendations r1 ++ recommendations r2
    /\ company sample_reading = ""
    /\ timestamp sample_reading = "2024-05-01T09:30:00".
Proof.
  apply (X19_recommendations_of_a_chat_in_two_parts "2024-05-01T09:30:00"
           (take 2 sample_chat) (drop 2 sample_chat) sample_reading).
  vm_compute. reflexivity.
Defined.

Lemma X20_the_second_market_message_is_kept :
  market_research sample_reading
  = last_under "insights" (said_by "MarketResearcher" sample_chat)
  /\ financial_analysis sample_reading
     = last_under "metrics" (said_by "FinancialAnalyst" sample_chat)
  /\ risk_assessment sample_reading
     = last_under "risks" (said_by "RiskAnalyst" sample_chat)
  /\ strategic_analysis sample_reading !! "swot"
     = last (List.filter (mentions "swot")
               (said_by "StrategyConsultant" sample_chat))
  /\ strategic_analysis sample_reading !! "porters"
     = last (List.filter
               (fun content => mentions "porter" content
                               && negb (mentions "swot" content))
               (said_by "StrategyConsultant" sample_chat)).
Proof.
  apply (X20_each_analysis_keeps_the_last_word "2024-05-01T09:30:00").
  vm_compute. reflexivity.
Defined.
